(** * kubectl api-resources: the discovery aggregation pipeline

    A shallow embedding of
    [staging/src/k8s.io/kubectl/pkg/cmd/apiresources/apiresources.go]:
    option validation, the per-bucket filter loop of [RunAPIResources],
    the flattening of the surviving buckets into one list object, the
    stable sort of the [groupResource] slice, and the command's
    Complete / Validate / Run sequence.

    Go strings are byte sequences and are modelled by [string]; slices are
    lists (a nil slice and an empty slice are both [[]]); [sets.Set[string]]
    is a [gset string]; pointers that may be nil are options; run-time
    panics and [os.Exit] are explicit outcomes; calls on external
    collaborators are recorded in a trace. *)

From Stdlib Require Import ZArith Lia Ascii.
From stdpp Require Import base option list sorting strings gmap.

(** ** Data model *)

(** Go's [error] values that this file creates or inspects. *)
Inductive error : Type :=
  | Errorf (msg : string)
  | UsageErrorf (msg : string) (args : list string)
  | NoCompatiblePrinterError (outputFormat : string) (allowed : list string)
  | ExternalError (msg : string).

Definition IsNoCompatiblePrinterError (err : option error) : bool :=
  match err with
  | Some (NoCompatiblePrinterError _ _) => true
  | _ => false
  end.

(** [k8s.io/apimachinery/pkg/apis/meta/v1]: the discovery types. *)
Module metav1.

Record TypeMeta : Type := mkTypeMeta {
  TypeMeta_Kind : string;
  TypeMeta_APIVersion : string
}.

Record APIResource : Type := mkAPIResource {
  Name : string;
  SingularName : string;
  Namespaced : bool;
  Group : string;
  Version : string;
  Kind : string;
  Verbs : list string;
  ShortNames : list string;
  Categories : list string;
  StorageVersionHash : string
}.

Record APIResourceList : Type := mkAPIResourceList {
  ListTypeMeta : TypeMeta;
  GroupVersion : string;
  APIResources : list APIResource
}.

End metav1.

(** [k8s.io/apimachinery/pkg/runtime/schema]. *)
Module schema.

Record GroupVersion : Type := mkGroupVersion {
  Group : string;
  Version : string
}.

(** [strings.Count(s, "/")], and the two sides of the first slash. *)
Fixpoint count_slash (s : string) : nat :=
  match s with
  | EmptyString => 0
  | String c rest =>
      (if Ascii.eqb c "/"%char then 1 else 0) + count_slash rest
  end.

Fixpoint before_slash (s : string) : string :=
  match s with
  | EmptyString => EmptyString
  | String c rest =>
      if Ascii.eqb c "/"%char then EmptyString else String c (before_slash rest)
  end.

Fixpoint after_slash (s : string) : string :=
  match s with
  | EmptyString => EmptyString
  | String c rest => if Ascii.eqb c "/"%char then rest else after_slash rest
  end.

(** Modelled from the spec: [ParseGroupVersion] lives in apimachinery,
    outside the file at hand.  A group-version string is a version
    ([v1], core group) or a group and a version separated by one slash
    ([apps/v1]); a string with more slashes is malformed.  The pipeline
    below does not depend on this definition: it takes its parser as a
    parameter, and this one instantiates it on concrete catalogs. *)
Definition ParseGroupVersion (gv : string) : GroupVersion * option error :=
  if (String.length gv =? 0)%nat || String.eqb gv "/" then
    (mkGroupVersion "" "", None)
  else
    match count_slash gv with
    | 0 => (mkGroupVersion "" gv, None)
    | 1 => (mkGroupVersion (before_slash gv) (after_slash gv), None)
    | _ => (mkGroupVersion "" "",
            Some (Errorf ("unexpected GroupVersion string: " +:+ gv)))
    end.

(** Modelled from the spec: [GroupVersion.String] lives in apimachinery,
    outside the file at hand; the glossary describes a group-version as
    an API group (possibly empty, meaning the core group) combined with
    a version string, written [apps/v1], and [v1] for the core group. *)
Definition String (gv : GroupVersion) : string :=
  if (0 <? String.length (Group gv))%nat
  then Group gv +:+ "/" +:+ Version gv
  else Version gv.

End schema.

(** [k8s.io/apimachinery/pkg/util/sets]: [sets.New] and the two queries
    the command uses. *)
Module sets.

Definition New (items : list string) : gset string := list_to_set items.

Definition Has (s : gset string) (item : string) : bool :=
  bool_decide (item ∈ s).

Definition HasAll (s : gset string) (items : list string) : bool :=
  forallb (Has s) items.

End sets.

(** [strings.Compare]: byte-wise lexicographic, result in {-1, 0, 1}. *)
Module strings.

Definition Compare (a b : string) : Z :=
  match String.compare a b with
  | Lt => (-1)%Z
  | Eq => 0%Z
  | Gt => 1%Z
  end.

End strings.

(** [groupResource] contains the APIGroup and APIResource. *)
Record groupResource : Type := mkGroupResource {
  APIGroup : string;
  APIGroupVersion : string;
  APIResource : metav1.APIResource
}.

(** ** The Sorter: [sort.Interface], [sortableResource] and [sort.Stable] *)

(** Package [sort] of the Go standard library.  A method that indexes its
    slice out of range panics; it answers [None] here. *)
Module sort.

Class Interface (T : Type) : Type := mkInterface {
  Len : T → nat;
  Less : T → nat → nat → option bool;
  Swap : T → nat → nat → option T
}.

(** [for j := i; j > a && data.Less(j, j-1); j-- { data.Swap(j, j-1) }] *)
Fixpoint insertionSort_inner {T : Type} `{!Interface T}
         (data : T) (a j : nat) : option T :=
  match j with
  | 0 => Some data
  | S j' =>
      if (a <? S j')%nat then
        less ← Less data (S j') j';
        if less : bool then
          data ← Swap data (S j') j';
          insertionSort_inner data a j'
        else Some data
      else Some data
  end.

(** [for i := a + 1; i < b; i++ { ... }], with [n] iterations to go. *)
Fixpoint insertionSort_outer {T : Type} `{!Interface T}
         (data : T) (a i n : nat) : option T :=
  match n with
  | 0 => Some data
  | S n' =>
      data ← insertionSort_inner data a i;
      insertionSort_outer data a (S i) n'
  end.

Definition insertionSort {T : Type} `{!Interface T}
           (data : T) (a b : nat) : option T :=
  insertionSort_outer data a (a + 1) (b - (a + 1)).

(** [Stable] sorts [data] while keeping the original order of equal
    elements.  Go insertion-sorts blocks of 20 elements and merges them
    with [symMerge]; the slice is taken here as one block, which is what
    Go does up to 20 elements.  Lemma [stable_sort_unique] below shows
    that every rearrangement that is in order and keeps the arrival order
    of equal keys coincides with the result computed here, so the merge
    phase cannot produce anything else. *)
Definition Stable {T : Type} `{!Interface T} (data : T) : option T :=
  insertionSort data 0 (Len data).

End sort.

Record sortableResource : Type := mkSortable {
  resources : list groupResource;
  sortBy : string
}.

Definition Len (s : sortableResource) : nat := length (resources s).

Definition Swap (s : sortableResource) (i j : nat) : option sortableResource :=
  ri ← resources s !! i;
  rj ← resources s !! j;
  Some (mkSortable (<[i := rj]> (<[j := ri]> (resources s))) (sortBy s)).

Definition compareValues (s : sortableResource) (i j : nat)
  : option (string * string) :=
  ri ← resources s !! i;
  rj ← resources s !! j;
  if String.eqb (sortBy s) "name" then
    Some (metav1.Name (APIResource ri), metav1.Name (APIResource rj))
  else if String.eqb (sortBy s) "kind" then
    Some (metav1.Kind (APIResource ri), metav1.Kind (APIResource rj))
  else Some (APIGroup ri, APIGroup rj).

Definition Less (s : sortableResource) (i j : nat) : option bool :=
  values ← compareValues s i j;
  let ret := strings.Compare values.1 values.2 in
  if (0 <? ret)%Z then Some false
  else if (ret =? 0)%Z then
    ri ← resources s !! i;
    rj ← resources s !! j;
    Some (strings.Compare (metav1.Name (APIResource ri))
                          (metav1.Name (APIResource rj)) <? 0)%Z
  else Some true.

#[export] Instance sortableResource_Interface : sort.Interface sortableResource :=
  sort.mkInterface sortableResource Len Less Swap.

(** ** Effects: trace of calls on the collaborators, panics, [os.Exit] *)

Inductive event : Type :=
  | EvToDiscoveryClient
  | EvInvalidate
  | EvServerPreferredResources
  | EvFprintf (text : string)
  | EvPrintObj (object : metav1.APIResourceList)
  | EvFlush.

Inductive outcome (A : Type) : Type :=
  | Return (a : A)
  | Panic (msg : string)
  | Exit (err : error).
Arguments Return {A} a.
Arguments Panic {A} msg.
Arguments Exit {A} err.

(** A computation yields the calls it made, in order, and how it ended. *)
Definition M (A : Type) : Type := list event * outcome A.

Definition run_bind {A B : Type} (k : A → M B) (m : M A) : M B :=
  match m.2 with
  | Return a => (m.1 ++ (k a).1, (k a).2)
  | Panic msg => (m.1, Panic msg)
  | Exit err => (m.1, Exit err)
  end.

#[export] Instance M_ret : MRet M := λ A a, ([], Return a).
#[export] Instance M_bind : MBind M := λ A B k m, run_bind k m.

Definition emit (e : event) : M unit := ([e], Return ()).
Definition panic {A : Type} (msg : string) : M A := ([], Panic msg).
Definition os_Exit {A : Type} (err : error) : M A := ([], Exit err).

(** [defer f(); body]: the deferred call runs when [body] returns and also
    when it panics, but not when the process exits. *)
Definition defer {A : Type} (e : event) (body : M A) : M A :=
  match body.2 with
  | Exit err => body
  | r => (body.1 ++ [e], r)
  end.

(** Dereferencing a pointer that may be nil. *)
Definition deref {A : Type} (p : option A) : M A :=
  match p with
  | Some a => mret a
  | None => panic "invalid memory address or nil pointer dereference"
  end.

(** A slice operation that may index out of range. *)
Definition in_range {A : Type} (r : option A) : M A :=
  match r with
  | Some a => mret a
  | None => panic "index out of range"
  end.

Definition trace {A : Type} (m : M A) : list event := m.1.
Definition result {A : Type} (m : M A) : outcome A := m.2.

(** ** Collaborators *)

(** A printer, as far as the command can observe it: the error it returns
    for an object.  What it writes is the [EvPrintObj] event. *)
Definition ResourcePrinter : Type := metav1.APIResourceList → option error.

(** [discovery.CachedDiscoveryInterface]: the answer the client gives to
    [ServerPreferredResources] on this invocation. *)
Record CachedDiscoveryInterface : Type := mkDiscovery {
  ServerPreferredResources : list metav1.APIResourceList * option error
}.

(** [io.Writer]: the error, if any, that a write of [text] returns. *)
Record Writer : Type := mkWriter { Write : string → option error }.

Record IOStreams : Type := mkIOStreams { Out : Writer }.

Record RESTClientGetter : Type := mkGetter {
  ToDiscoveryClient : option CachedDiscoveryInterface * option error
}.

(** [cobra.Command], reduced to [cmd.Flags().Changed]. *)
Record Command : Type := mkCommand { Changed : string → bool }.

(** The three families of print flags; each answers a format string with
    a printer and an error, and lists the formats it accepts. *)
Record FormatFlags : Type := mkFormatFlags {
  Flags_ToPrinter : string → option ResourcePrinter * option error;
  Flags_AllowedFormats : list string
}.

Module get.
Record HumanPrintFlags : Type := mkHumanPrintFlags {
  NoHeaders : bool;
  ToPrinter : bool → string → option ResourcePrinter * option error;
  AllowedFormats : list string
}.
End get.

Module PrintFlags.
Record t : Type := mk {
  JSONYamlPrintFlags : FormatFlags;
  NamePrintFlags : FormatFlags;
  HumanReadableFlags : get.HumanPrintFlags;
  NoHeaders : option bool;
  OutputFormat : option string
}.
End PrintFlags.

(** [APIResourceOptions] is the start of the data required to perform the
    operation. *)
Module APIResourceOptions.
Record t : Type := mk {
  SortBy : string;
  APIGroup : string;
  Namespaced : bool;
  Verbs : list string;
  Cached : bool;
  Categories : list string;
  groupChanged : bool;
  nsChanged : bool;
  discoveryClient : option CachedDiscoveryInterface;
  Streams : IOStreams;
  PrintFlags : PrintFlags.t;
  PrintObj : option ResourcePrinter
}.
End APIResourceOptions.

Abbreviation Options := APIResourceOptions.t.

(** ** Print flags *)

Definition AllowedFormats (f : PrintFlags.t) : list string :=
  let ret := [] in
  let ret := ret ++ Flags_AllowedFormats (PrintFlags.JSONYamlPrintFlags f) in
  let ret := ret ++ Flags_AllowedFormats (PrintFlags.NamePrintFlags f) in
  let ret := ret ++ get.AllowedFormats (PrintFlags.HumanReadableFlags f) in
  ret.

(** [ToPrinter] stores [noHeaders] in the human-readable flags and then
    asks the structured, the human-readable and the name family in turn. *)
Definition ToPrinter (f : PrintFlags.t)
  : PrintFlags.t * (option ResourcePrinter * option error) :=
  let outputFormat := default "" (PrintFlags.OutputFormat f) in
  let noHeaders := default false (PrintFlags.NoHeaders f) in
  let human := PrintFlags.HumanReadableFlags f in
  let human' :=
    get.mkHumanPrintFlags noHeaders (get.ToPrinter human)
                          (get.AllowedFormats human) in
  let f' :=
    PrintFlags.mk (PrintFlags.JSONYamlPrintFlags f) (PrintFlags.NamePrintFlags f)
                  human' (PrintFlags.NoHeaders f) (PrintFlags.OutputFormat f) in
  let r1 := Flags_ToPrinter (PrintFlags.JSONYamlPrintFlags f') outputFormat in
  if negb (IsNoCompatiblePrinterError r1.2) then (f', r1) else
  let r2 := get.ToPrinter human' (get.NoHeaders human') outputFormat in
  if negb (IsNoCompatiblePrinterError r2.2) then (f', r2) else
  let r3 := Flags_ToPrinter (PrintFlags.NamePrintFlags f') outputFormat in
  if negb (IsNoCompatiblePrinterError r3.2) then (f', r3) else
  (f', (None, Some (NoCompatiblePrinterError outputFormat (AllowedFormats f')))).

(** ** Validate *)

(** [Validate] checks the options to see if there is sufficient
    information to run the command. *)
Definition Validate (o : Options) : option error :=
  let supportedSortTypes := sets.New [""; "name"; "kind"] in
  if (0 <? String.length (APIResourceOptions.SortBy o))%nat then
    if negb (sets.Has supportedSortTypes (APIResourceOptions.SortBy o)) then
      Some (Errorf "--sort-by accepts only name or kind")
    else None
  else None.

(** ** The pipeline *)

Definition printContextHeaders (out : Writer) (output : string)
  : M (option error) :=
  let columnNames := ["NAME"; "SHORTNAMES"; "APIVERSION"; "NAMESPACED"; "KIND"] in
  let columnNames :=
    if String.eqb output "wide"
    then columnNames ++ ["VERBS"; "CATEGORIES"] else columnNames in
  let text := String.concat (String (Ascii.ascii_of_nat 9) "") columnNames
              +:+ String (Ascii.ascii_of_nat 10) "" in
  emit (EvFprintf text);;
  mret (Write out text).

Section Pipeline.

(** [schema.ParseGroupVersion] and the type-setting printer wrapper are
    supplied by apimachinery and cli-runtime; the pipeline is embedded
    for whatever they answer. *)
Variable ParseGroupVersion : string → schema.GroupVersion * option error.
Variable WrapToPrinter :
  option ResourcePrinter → option ResourcePrinter * option error.

Import APIResourceOptions.

(** The five [continue] guards of the inner loop, in source order. *)
Definition skipped (o : Options) (gv : schema.GroupVersion)
           (resource : metav1.APIResource) : bool :=
  if (length (metav1.Verbs resource) =? 0)%nat then true
  (* filter apiGroup *)
  else if groupChanged o && bool_decide (APIGroup o ≠ schema.Group gv) then true
  (* filter namespaced *)
  else if nsChanged o
          && bool_decide (Namespaced o ≠ metav1.Namespaced resource) then true
  (* filter to resources that support the specified verbs *)
  else if (0 <? length (Verbs o))%nat
          && negb (sets.HasAll (sets.New (metav1.Verbs resource)) (Verbs o))
  then true
  (* filter to resources that belong to the specified categories *)
  else if (0 <? length (Categories o))%nat
          && negb (sets.HasAll (sets.New (metav1.Categories resource))
                               (Categories o))
  then true
  else false.

(** One iteration of [for _, resource := range list.APIResources]; the
    state is the pair ([resources], [apiResources]). *)
Definition resource_step (o : Options) (gv : schema.GroupVersion)
           (st : list groupResource * list metav1.APIResource)
           (resource : metav1.APIResource)
  : list groupResource * list metav1.APIResource :=
  if skipped o gv resource then st
  else (st.1 ++ [mkGroupResource (schema.Group gv) (schema.String gv) resource],
        st.2 ++ [resource]).

(** One iteration of [for _, list := range lists], with [lst] for
    [list]; the state is the pair ([resources], [allResources]). *)
Definition list_step (o : Options)
           (st : list groupResource * list metav1.APIResourceList)
           (lst : metav1.APIResourceList)
  : list groupResource * list metav1.APIResourceList :=
  if (length (metav1.APIResources lst) =? 0)%nat then st
  else
    let '(gv, err) := ParseGroupVersion (metav1.GroupVersion lst) in
    if bool_decide (err ≠ None) then st
    else
      let inner :=
        fold_left (resource_step o gv) (metav1.APIResources lst) (st.1, []) in
      let apiList :=
        metav1.mkAPIResourceList
          (metav1.mkTypeMeta "APIResourceList" "v1")
          (schema.String gv) inner.2 in
      (inner.1, st.2 ++ [apiList]).

Definition collect (o : Options) (lists : list metav1.APIResourceList)
  : list groupResource * list metav1.APIResourceList :=
  fold_left (list_step o) lists ([], []).

(** Lines 333-341: the list header is read from [allResources[0]]. *)
Definition flatten (allResources : list metav1.APIResourceList)
  : M metav1.APIResourceList :=
  match allResources with
  | [] => panic "index out of range [0] with length 0"
  | first :: _ =>
      let header :=
        metav1.mkTypeMeta (metav1.TypeMeta_Kind (metav1.ListTypeMeta first))
                          (metav1.TypeMeta_APIVersion (metav1.ListTypeMeta first)) in
      mret (metav1.mkAPIResourceList header ""
              (fold_left (λ acc resource, acc ++ metav1.APIResources resource)
                         allResources []))
  end.

(** Whether the header row is due; [*NoHeaders] is read first. *)
Definition headers_due (f : PrintFlags.t) : M bool :=
  noHeaders ← deref (PrintFlags.NoHeaders f);
  mret (negb noHeaders
        && match PrintFlags.OutputFormat f with
           | None => true
           | Some output => String.eqb output "" || String.eqb output "wide"
           end).

(** [RunAPIResources] does the work. *)
Definition RunAPIResources (o : Options) : M (option error) :=
  let w := Out (Streams o) in
  defer EvFlush (
    client ← deref (discoveryClient o);
    (if negb (Cached o) then emit EvInvalidate else mret ());;
    let errs : list error := [] in
    emit EvServerPreferredResources;;
    let '(lists, err) := ServerPreferredResources client in
    let errs := if err is Some e then errs ++ [e] else errs in
    let '(resources, allResources) := collect o lists in
    due ← headers_due (PrintFlags o);
    err ← (if due : bool then
             output ← deref (PrintFlags.OutputFormat (PrintFlags o));
             printContextHeaders w output
           else mret None);
    if err is Some e then mret (Some e) else
    flatList ← flatten allResources;
    '(mkSortable resources _) ←
      in_range (sort.Stable (mkSortable resources (SortBy o)));
    printObj ← deref (PrintObj o);
    emit (EvPrintObj flatList);;
    mret (printObj flatList)).

(** [Complete] adapts from the command line args and validates them.
    The closure it stores in [o.PrintObj] forwards to the wrapped
    printer; a nil printer faults when the closure is called, exactly
    where a nil [o.PrintObj] does, so the field holds the printer. *)
Definition Complete (o : Options) (restClientGetter : RESTClientGetter)
           (cmd : Command) (args : list string) : M (Options * option error) :=
  if negb (length args =? 0)%nat then
    mret (o, Some (UsageErrorf "unexpected arguments: %v" args))
  else
    emit EvToDiscoveryClient;;
    let '(client, err) := ToDiscoveryClient restClientGetter in
    if err is Some e then mret (o, Some e) else
    let o := mk (SortBy o) (APIGroup o) (Namespaced o) (Verbs o) (Cached o)
                (Categories o) (Changed cmd "api-group")
                (Changed cmd "namespaced") client (Streams o)
                (PrintFlags o) (PrintObj o) in
    match PrintFlags.OutputFormat (PrintFlags o) with
    | None => mret (o, None)
    | Some _ =>
        let '(flags, (printer, err)) := ToPrinter (PrintFlags o) in
        let o := mk (SortBy o) (APIGroup o) (Namespaced o) (Verbs o) (Cached o)
                    (Categories o) (groupChanged o) (nsChanged o)
                    (discoveryClient o) (Streams o) flags (PrintObj o) in
        if err is Some e then mret (o, Some e) else
        let '(printer, err) := WrapToPrinter printer in
        if err is Some e then mret (o, Some e) else
        mret (mk (SortBy o) (APIGroup o) (Namespaced o) (Verbs o) (Cached o)
                 (Categories o) (groupChanged o) (nsChanged o)
                 (discoveryClient o) (Streams o) (PrintFlags o) printer,
              None)
    end.

(** [cmdutil.CheckErr]: a non-nil error ends the process. *)
Definition CheckErr (err : option error) : M unit :=
  if err is Some e then os_Exit e else mret ().

(** The [Run] closure of [NewCmdAPIResources], on the options as the
    flag parser left them. *)
Definition Run (o : Options) (restClientGetter : RESTClientGetter)
           (cmd : Command) (args : list string) : M unit :=
  '(o, err) ← Complete o restClientGetter cmd args;
  CheckErr err;;
  CheckErr (Validate o);;
  err ← RunAPIResources o;
  CheckErr err.

End Pipeline.

(** ** Constructors and concrete catalogs *)

Definition APIResourcesHumanReadableFlags
           (toPrinter : bool → string → option ResourcePrinter * option error)
           (allowed : list string) : get.HumanPrintFlags :=
  get.mkHumanPrintFlags false toPrinter allowed.

Definition NewPrintFlags (json name : FormatFlags)
           (human : get.HumanPrintFlags) : PrintFlags.t :=
  let outputFormat := "" in
  let noHeaders := false in
  PrintFlags.mk json name human (Some noHeaders) (Some outputFormat).

(** [NewAPIResourceOptions] creates the options for APIResource. *)
Definition NewAPIResourceOptions (ioStreams : IOStreams) (flags : PrintFlags.t)
  : Options :=
  APIResourceOptions.mk "" "" true [] false [] false false None
                        ioStreams flags None.

Definition with_SortBy (o : Options) (sortBy : string) : Options :=
  let 'APIResourceOptions.mk _ g n v c cs gc nc d s f p := o in
  APIResourceOptions.mk sortBy g n v c cs gc nc d s f p.

Definition with_catalog (o : Options) (lists : list metav1.APIResourceList)
           (err : option error) : Options :=
  let 'APIResourceOptions.mk sb g n v c cs gc nc _ s f p := o in
  APIResourceOptions.mk sb g n v c cs gc nc (Some (mkDiscovery (lists, err))) s f p.

(** Print-flag families that behave like the structured, the
    human-readable and the name printers as far as format negotiation
    goes; every printer they hand out succeeds. *)
Definition accepts (formats : list string) (outputFormat : string)
  : option ResourcePrinter * option error :=
  if bool_decide (outputFormat ∈ formats) then (Some (λ _, None), None)
  else (None, Some (NoCompatiblePrinterError outputFormat formats)).

Definition jsonYamlFlags : FormatFlags :=
  mkFormatFlags (accepts ["json"; "yaml"]) ["json"; "yaml"].
Definition nameFlags : FormatFlags := mkFormatFlags (accepts ["name"]) ["name"].
Definition humanFlags : get.HumanPrintFlags :=
  APIResourcesHumanReadableFlags (λ _, accepts [""; "wide"]) ["wide"].

Definition stdout : Writer := mkWriter (λ _, None).

Definition fresh_options : Options :=
  NewAPIResourceOptions (mkIOStreams stdout)
                        (NewPrintFlags jsonYamlFlags nameFlags humanFlags).

Definition getter_for (lists : list metav1.APIResourceList) (err : option error)
  : RESTClientGetter :=
  mkGetter (Some (mkDiscovery (lists, err)), None).

Definition no_flag_changed : Command := mkCommand (λ _, false).

(** Scenario A of the specification: [apps/v1] with [deployments] and the
    core [v1] with [namespaces]. *)
Definition deployments : metav1.APIResource :=
  metav1.mkAPIResource "deployments" "deployment" true "" "" "Deployment"
                       ["get"; "list"] ["deploy"] ["all"] "".

Definition namespaces : metav1.APIResource :=
  metav1.mkAPIResource "namespaces" "namespace" false "" "" "Namespace"
                       ["get"; "list"] ["ns"] [] "".

Definition bucket (groupVersion : string) (rs : list metav1.APIResource)
  : metav1.APIResourceList :=
  metav1.mkAPIResourceList (metav1.mkTypeMeta "" "") groupVersion rs.

Definition scenarioA : list metav1.APIResourceList :=
  [bucket "apps/v1" [deployments]; bucket "v1" [namespaces]].

(** Options as [Complete] leaves them for [-o json] on a given catalog. *)
Definition json_options (lists : list metav1.APIResourceList)
           (err : option error) : Options :=
  APIResourceOptions.mk "" "" true [] false [] false false
    (Some (mkDiscovery (lists, err))) (mkIOStreams stdout)
    (PrintFlags.mk jsonYamlFlags nameFlags humanFlags (Some false) (Some "json"))
    (Some (λ _, None)).

(** ** Notions used to state the properties *)

(** The primary field that [compareValues] selects for one entry. *)
Definition primary (sortBy : string) (r : groupResource) : string :=
  if String.eqb sortBy "name" then metav1.Name (APIResource r)
  else if String.eqb sortBy "kind" then metav1.Kind (APIResource r)
  else APIGroup r.

(** Primary field first, resource name second. *)
Definition key_compare (sortBy : string) (x y : groupResource) : comparison :=
  match String.compare (primary sortBy x) (primary sortBy y) with
  | Eq => String.compare (metav1.Name (APIResource x))
                         (metav1.Name (APIResource y))
  | c => c
  end.

(** What [Less] answers for two entries of the slice. *)
Definition before (sortBy : string) (x y : groupResource) : bool :=
  bool_decide (key_compare sortBy x y = Lt).

(** Insertion into a sorted prefix and insertion sort, on lists: the
    prefix is kept reversed, so its head is the left neighbour of the
    element that moves left. *)
Fixpoint move_left {A : Type} (less : A → A → bool) (x : A) (prefix : list A)
  : list A :=
  match prefix with
  | [] => [x]
  | y :: rest =>
      if less x y then y :: move_left less x rest else x :: y :: rest
  end.

Definition insertion_sorted {A : Type} (less : A → A → bool) (data : list A)
  : list A :=
  reverse (fold_left (λ prefix x, move_left less x prefix) data []).

(** [sort.Stable] turns the slice [l] into [l']. *)
Definition sorts_to (sortBy : string) (l l' : list groupResource) : Prop :=
  sort.Stable (mkSortable l sortBy) = Some (mkSortable l' sortBy).

(** Identical full comparison key: equal primary field, equal name. *)
Definition same_key (sortBy : string) (x y : groupResource) : Prop :=
  primary sortBy x = primary sortBy y
  ∧ metav1.Name (APIResource x) = metav1.Name (APIResource y).

#[export] Instance same_key_dec sortBy x y : Decision (same_key sortBy x y).
Proof. unfold same_key. apply _. Defined.

(** The active predicates of a filter configuration, for one entry. *)
Definition satisfies (o : Options) (e : groupResource) : Prop :=
  (APIResourceOptions.groupChanged o = true →
     APIGroup e = APIResourceOptions.APIGroup o)
  ∧ (APIResourceOptions.nsChanged o = true →
       metav1.Namespaced (APIResource e) = APIResourceOptions.Namespaced o)
  ∧ (APIResourceOptions.Verbs o ≠ [] →
       APIResourceOptions.Verbs o ⊆ metav1.Verbs (APIResource e))
  ∧ (APIResourceOptions.Categories o ≠ [] →
       APIResourceOptions.Categories o ⊆ metav1.Categories (APIResource e)).

(** A record with a non-empty verb list, and an event whose printed
    object, if any, holds only records that satisfy [P]. *)
Definition has_verbs (r : metav1.APIResource) : Prop := metav1.Verbs r ≠ [].

Definition prints_only (P : metav1.APIResource → Prop) (ev : event) : Prop :=
  match ev with
  | EvPrintObj object => Forall P (metav1.APIResources object)
  | _ => True
  end.

(** Events that touch the catalog source or the output sink. *)
Definition touches_catalog_or_output (ev : event) : bool :=
  match ev with
  | EvToDiscoveryClient => false
  | _ => true
  end.

(** The (group-version, name, kind, namespaced, verbs, categories) tuple of
    an entry that survived filtering, and what a structured record holds
    of it: a record has no group-version field besides its own [Group] and
    [Version]. *)
Definition entry_tuple (e : groupResource)
  : string * string * string * bool * list string * list string :=
  (APIGroupVersion e, metav1.Name (APIResource e), metav1.Kind (APIResource e),
   metav1.Namespaced (APIResource e), metav1.Verbs (APIResource e),
   metav1.Categories (APIResource e)).

Definition record_tuple (r : metav1.APIResource)
  : string * string * string * bool * list string * list string :=
  (schema.String (schema.mkGroupVersion (metav1.Group r) (metav1.Version r)),
   metav1.Name r, metav1.Kind r, metav1.Namespaced r, metav1.Verbs r,
   metav1.Categories r).

(** What the two loops maintain: every entry and every record collected so
    far passed the guards, and the records of the surviving buckets, read
    bucket after bucket, are the records of the entries, in the same
    order. *)
Definition collected (o : Options)
           (st : list groupResource * list metav1.APIResourceList) : Prop :=
  Forall (λ e, has_verbs (APIResource e) ∧ satisfies o e) st.1
  ∧ concat (metav1.APIResources <$> st.2) = APIResource <$> st.1.

(** Byte-wise non-decreasing, and the order of two entries by a primary
    field with the resource name as tie-break. *)
Definition non_decreasing (a b : string) : Prop := String.compare a b ≠ Gt.

Definition entry_name (e : groupResource) : string :=
  metav1.Name (APIResource e).

Definition entry_kind (e : groupResource) : string :=
  metav1.Kind (APIResource e).

Definition ordered_by (field : groupResource → string) (x y : groupResource)
  : Prop :=
  non_decreasing (field x) (field y)
  ∧ (field x = field y → non_decreasing (entry_name x) (entry_name y)).

(** The identity wrapper, for running [Complete] on concrete options. *)
Definition plain_wrapper (printer : option ResourcePrinter)
  : option ResourcePrinter * option error := (printer, None).

(** ** Further notions: ingestion, setters, the header row *)

Definition with_APIGroup (o : Options) (group : string) (changed : bool)
  : Options :=
  let 'APIResourceOptions.mk sb _ n v c cs _ nc d s f p := o in
  APIResourceOptions.mk sb group n v c cs changed nc d s f p.

Definition with_Namespaced (o : Options) (namespaced : bool) (changed : bool)
  : Options :=
  let 'APIResourceOptions.mk sb g _ v c cs gc _ d s f p := o in
  APIResourceOptions.mk sb g namespaced v c cs gc changed d s f p.

Definition with_Verbs (o : Options) (verbs : list string) : Options :=
  let 'APIResourceOptions.mk sb g n _ c cs gc nc d s f p := o in
  APIResourceOptions.mk sb g n verbs c cs gc nc d s f p.

Definition with_Categories (o : Options) (categories : list string) : Options :=
  let 'APIResourceOptions.mk sb g n v c _ gc nc d s f p := o in
  APIResourceOptions.mk sb g n v c categories gc nc d s f p.

(** A bucket reaches [allResources]: it lists at least one resource and
    its group-version parses. *)
Definition ingested (parse : string → schema.GroupVersion * option error)
           (lst : metav1.APIResourceList) : Prop :=
  metav1.APIResources lst ≠ [] ∧ (parse (metav1.GroupVersion lst)).2 = None.

#[export] Instance ingested_dec parse lst : Decision (ingested parse lst).
Proof. unfold ingested. apply _. Defined.

(** The resources of a bucket that pass the guards, and the entries they
    make, under the group-version the bucket parses to. *)
Definition kept (parse : string → schema.GroupVersion * option error)
           (o : Options) (lst : metav1.APIResourceList)
  : list metav1.APIResource :=
  filter (λ r, skipped o (parse (metav1.GroupVersion lst)).1 r = false)
         (metav1.APIResources lst).

Definition entry_of (parse : string → schema.GroupVersion * option error)
           (lst : metav1.APIResourceList) (r : metav1.APIResource)
  : groupResource :=
  let gv := (parse (metav1.GroupVersion lst)).1 in
  mkGroupResource (schema.Group gv) (schema.String gv) r.

(** The header row that [printContextHeaders] writes. *)
Definition header_row (output : string) : string :=
  String.concat (String (ascii_of_nat 9) "")
    (if String.eqb output "wide"
     then ["NAME"; "SHORTNAMES"; "APIVERSION"; "NAMESPACED"; "KIND";
           "VERBS"; "CATEGORIES"]
     else ["NAME"; "SHORTNAMES"; "APIVERSION"; "NAMESPACED"; "KIND"])
  +:+ String (ascii_of_nat 10) "".


(** What each family of print flags answers to the flags' format, a nil
    format read as the empty one and a nil [NoHeaders] as false. *)
Definition json_answer (f : PrintFlags.t)
  : option ResourcePrinter * option error :=
  Flags_ToPrinter (PrintFlags.JSONYamlPrintFlags f)
                  (default "" (PrintFlags.OutputFormat f)).

Definition human_answer (f : PrintFlags.t)
  : option ResourcePrinter * option error :=
  get.ToPrinter (PrintFlags.HumanReadableFlags f)
                (default false (PrintFlags.NoHeaders f))
                (default "" (PrintFlags.OutputFormat f)).

Definition name_answer (f : PrintFlags.t)
  : option ResourcePrinter * option error :=
  Flags_ToPrinter (PrintFlags.NamePrintFlags f)
                  (default "" (PrintFlags.OutputFormat f)).

(** Concrete options: as the flag parser leaves them for [--no-headers]
    and [-o], and as [Complete] then leaves them on a given catalog. *)
Definition flags_for (noHeaders : bool) (output : string) : PrintFlags.t :=
  PrintFlags.mk jsonYamlFlags nameFlags humanFlags (Some noHeaders)
                (Some output).

Definition parsed_options (out : Writer) (noHeaders : bool) (output : string)
  : Options :=
  NewAPIResourceOptions (mkIOStreams out) (flags_for noHeaders output).

Definition completed_options (out : Writer) (noHeaders : bool)
           (output : string) (lists : list metav1.APIResourceList) : Options :=
  APIResourceOptions.mk "" "" true [] false [] false false
    (Some (mkDiscovery (lists, None))) (mkIOStreams out)
    (ToPrinter (flags_for noHeaders output)).1
    (ToPrinter (flags_for noHeaders output)).2.1.


Definition failing_getter (e : error) : RESTClientGetter :=
  mkGetter (None, Some e).

(** Entries for concrete slices. *)
Definition entry (group groupVersion : string) (r : metav1.APIResource)
  : groupResource := mkGroupResource group groupVersion r.

(** * Properties *)

(** ** Byte-wise string order *)

Section StringOrder.

Lemma ascii_compare_refl (c : ascii) : Ascii.compare c c = Eq.
Proof. unfold Ascii.compare. apply N.compare_refl. Qed.

Lemma ascii_compare_lt_trans (a b c : ascii) :
  Ascii.compare a b = Lt → Ascii.compare b c = Lt → Ascii.compare a c = Lt.
Proof.
  unfold Ascii.compare. rewrite !N.compare_lt_iff. apply N.lt_trans.
Qed.

Lemma string_compare_refl (s : string) : String.compare s s = Eq.
Proof.
  induction s as [|c s IH]; simpl; [done|].
  by rewrite ascii_compare_refl.
Qed.

Lemma string_compare_eq (a b : string) : String.compare a b = Eq ↔ a = b.
Proof.
  split; [apply String.compare_eq_iff|].
  intros ->. apply string_compare_refl.
Qed.

Lemma string_compare_lt_trans (a b c : string) :
  String.compare a b = Lt → String.compare b c = Lt → String.compare a c = Lt.
Proof.
  revert b c. induction a as [|x a IH]; intros [|y b] [|z c]; simpl; try done.
  destruct (Ascii.compare x y) eqn:Hxy; try done;
    destruct (Ascii.compare y z) eqn:Hyz; try done; intros Hab Hbc.
  - apply Ascii.compare_eq_iff in Hxy, Hyz. subst.
    rewrite ascii_compare_refl. eauto.
  - apply Ascii.compare_eq_iff in Hxy. subst. by rewrite Hyz.
  - apply Ascii.compare_eq_iff in Hyz. subst. by rewrite Hxy.
  - by rewrite (ascii_compare_lt_trans x y z).
Qed.

End StringOrder.

(** ** The order that [Less] decides *)

Section LessOrder.
Variable sortBy : string.
Implicit Types (x y z : groupResource).

Lemma before_key_compare x y :
  before sortBy x y = true ↔ key_compare sortBy x y = Lt.
Proof. unfold before. apply bool_decide_eq_true. Qed.

Lemma key_compare_antisym x y :
  key_compare sortBy x y = CompOpp (key_compare sortBy y x).
Proof.
  unfold key_compare.
  rewrite (String.compare_antisym (primary sortBy y)).
  destruct (String.compare (primary sortBy x) (primary sortBy y)); simpl;
    [|done|done].
  apply String.compare_antisym.
Qed.

Lemma key_compare_eq x y :
  key_compare sortBy x y = Eq ↔ same_key sortBy x y.
Proof.
  unfold key_compare, same_key. split.
  - destruct (String.compare (primary sortBy x) _) eqn:Hp; try done.
    intros Hn. by apply string_compare_eq in Hp, Hn.
  - intros [-> ->]. by rewrite !string_compare_refl.
Qed.

Lemma key_compare_lt_trans x y z :
  key_compare sortBy x y = Lt → key_compare sortBy y z = Lt →
  key_compare sortBy x z = Lt.
Proof.
  unfold key_compare.
  destruct (String.compare (primary sortBy x) (primary sortBy y)) eqn:Hxy;
    try done;
    destruct (String.compare (primary sortBy y) (primary sortBy z)) eqn:Hyz;
    try done; intros Hn1 Hn2.
  - apply string_compare_eq in Hxy, Hyz. rewrite Hxy, Hyz.
    rewrite string_compare_refl. eauto using string_compare_lt_trans.
  - apply string_compare_eq in Hxy. by rewrite Hxy, Hyz.
  - apply string_compare_eq in Hyz. by rewrite <-Hyz, Hxy.
  - by rewrite (string_compare_lt_trans _ _ _ Hxy Hyz).
Qed.

Lemma same_key_key_compare x y z :
  same_key sortBy x y → key_compare sortBy x z = key_compare sortBy y z.
Proof. intros [Hp Hn]. unfold key_compare. by rewrite Hp, Hn. Qed.

Lemma before_false x y :
  before sortBy x y = false ↔ key_compare sortBy x y ≠ Lt.
Proof. unfold before. apply bool_decide_eq_false. Qed.

Lemma before_irrefl x : before sortBy x x = false.
Proof.
  apply before_false. by rewrite (proj2 (key_compare_eq x x)).
Qed.

Lemma before_asym x y : before sortBy x y = true → before sortBy y x = false.
Proof.
  rewrite before_key_compare, before_false, (key_compare_antisym y x).
  by intros ->.
Qed.

Lemma before_negtrans x y z :
  before sortBy x y = false → before sortBy y z = false →
  before sortBy x z = false.
Proof.
  rewrite !before_false. intros Hxy Hyz Hxz.
  destruct (key_compare sortBy x y) eqn:Hc; [| done |].
  - apply key_compare_eq in Hc.
    by rewrite (same_key_key_compare x y z Hc) in Hxz.
  - apply Hyz. apply (key_compare_lt_trans y x z); [|done].
    by rewrite key_compare_antisym, Hc.
Qed.

Lemma same_key_not_before x y : same_key sortBy x y → before sortBy x y = false.
Proof.
  intros Hk. apply before_false. by rewrite (proj2 (key_compare_eq x y) Hk).
Qed.

Lemma not_before_same_key x y :
  before sortBy x y = false → before sortBy y x = false → same_key sortBy x y.
Proof.
  rewrite !before_false, (key_compare_antisym y x). intros H1 H2.
  apply key_compare_eq. by destruct (key_compare sortBy x y).
Qed.

End LessOrder.

(** ** The methods of [sortableResource] on indices in range *)

Section Methods.
Implicit Types (s : sortableResource) (x y : groupResource) (i j : nat).

Lemma compareValues_Some s i j x y :
  resources s !! i = Some x → resources s !! j = Some y →
  compareValues s i j = Some (primary (sortBy s) x, primary (sortBy s) y).
Proof.
  intros Hi Hj. unfold compareValues, primary. rewrite Hi, Hj. simpl.
  by destruct (String.eqb (sortBy s) "name"), (String.eqb (sortBy s) "kind").
Qed.

(** [Less(i, j)] decides the order on (primary field, name). *)
Lemma Less_Some s i j x y :
  resources s !! i = Some x → resources s !! j = Some y →
  Less s i j = Some (before (sortBy s) x y).
Proof.
  intros Hi Hj. unfold Less.
  rewrite (compareValues_Some s i j x y Hi Hj), Hi, Hj. simpl.
  unfold before, key_compare, strings.Compare.
  destruct (String.compare (primary (sortBy s) x) (primary (sortBy s) y));
    simpl; [|done|done].
  by destruct (String.compare _ _).
Qed.

Lemma Swap_Some s i j x y :
  resources s !! i = Some x → resources s !! j = Some y →
  Swap s i j = Some (mkSortable (<[i := y]> (<[j := x]> (resources s))) (sortBy s)).
Proof. intros Hi Hj. unfold Swap. by rewrite Hi, Hj. Qed.

End Methods.

(** ** Insertion sort: rearrangement, order, stability *)

Section InsertionSortFacts.
Context {A : Type} (less : A → A → bool).

(** [x] is not before [y]. *)
Let not_before (x y : A) : Prop := less x y = false.
(** The order of a finished slice: no later element is [less] than an
    earlier one. *)
Let ascending (x y : A) : Prop := less y x = false.

Lemma move_left_Permutation x prefix : move_left less x prefix ≡ₚ x :: prefix.
Proof.
  induction prefix as [|y rest IH]; simpl; [done|].
  destruct (less x y); [|done].
  rewrite IH. apply Permutation_swap.
Qed.

Lemma insert_all_Permutation data prefix :
  fold_left (λ prefix x, move_left less x prefix) data prefix
  ≡ₚ data ++ prefix.
Proof.
  revert prefix. induction data as [|x data IH]; intros prefix; simpl; [done|].
  rewrite IH, move_left_Permutation. by rewrite Permutation_middle.
Qed.

Lemma insertion_sorted_Permutation data : insertion_sorted less data ≡ₚ data.
Proof.
  unfold insertion_sorted.
  by rewrite reverse_Permutation, insert_all_Permutation, app_nil_r.
Qed.

Section Order.
Hypothesis less_asym : ∀ x y, less x y = true → less y x = false.
Hypothesis less_negtrans :
  ∀ x y z, less x y = false → less y z = false → less x z = false.

Lemma move_left_sorted x prefix :
  StronglySorted not_before prefix →
  StronglySorted not_before (move_left less x prefix).
Proof.
  induction prefix as [|y rest IH]; simpl; intros Hs.
  { repeat constructor. }
  apply StronglySorted_inv in Hs as [Hrest Hy].
  destruct (less x y) eqn:Hxy.
  - constructor; [by apply IH|].
    rewrite move_left_Permutation. constructor; [|done].
    by apply less_asym.
  - constructor; [by constructor|].
    constructor; [done|].
    eapply Forall_impl; [exact Hy|]. intros z Hz.
    by apply (less_negtrans x y z).
Qed.

Lemma insert_all_sorted data prefix :
  StronglySorted not_before prefix →
  StronglySorted not_before
    (fold_left (λ prefix x, move_left less x prefix) data prefix).
Proof.
  revert prefix. induction data as [|x data IH]; intros prefix Hs; simpl;
    [done|].
  by apply IH, move_left_sorted.
Qed.

Lemma reverse_sorted l :
  StronglySorted not_before l → StronglySorted ascending (reverse l).
Proof.
  induction 1 as [|x l Hl IH Hx]; [rewrite reverse_nil; constructor|].
  rewrite reverse_cons. apply StronglySorted_app_2.
  - intros y z Hy ->%list_elem_of_singleton.
    rewrite elem_of_reverse in Hy.
    rewrite Forall_forall in Hx. by apply Hx.
  - done.
  - repeat constructor.
Qed.

Lemma insertion_sorted_sorted data :
  StronglySorted ascending (insertion_sorted less data).
Proof. apply reverse_sorted, insert_all_sorted. constructor. Qed.
End Order.

(** Stability, for a class [P] of elements none of which is [less] than
    another: their order of arrival is kept. *)
Section Stability.
Context (P : A → Prop) `{!∀ x, Decision (P x)}.
Hypothesis P_incomparable : ∀ x y, P x → P y → less x y = false.

Lemma move_left_filter x prefix :
  filter P (move_left less x prefix) = filter P (x :: prefix).
Proof.
  induction prefix as [|y rest IH]; simpl; [done|].
  destruct (less x y) eqn:Hxy; [|done].
  rewrite filter_cons, IH, !filter_cons.
  destruct (decide (P y)) as [Hy|Hy], (decide (P x)) as [Hx|Hx]; try done.
  by rewrite (P_incomparable x y Hx Hy) in Hxy.
Qed.

Lemma insert_all_filter data prefix :
  filter P (fold_left (λ prefix x, move_left less x prefix) data prefix)
  = reverse (filter P data) ++ filter P prefix.
Proof.
  revert prefix. induction data as [|x data IH]; intros prefix; simpl;
    [done|].
  rewrite IH, move_left_filter, !filter_cons.
  destruct (decide (P x)); [|done].
  by rewrite reverse_cons, <-app_assoc.
Qed.

Lemma insertion_sorted_filter data :
  filter P (insertion_sorted less data) = filter P data.
Proof.
  unfold insertion_sorted.
  rewrite filter_reverse, insert_all_filter, filter_nil, app_nil_r.
  apply reverse_involutive.
Qed.
End Stability.

(** A slice in order is determined by the arrival order inside each
    class of mutually incomparable elements: two sorted slices that
    agree on every class are the same slice. *)
Section Uniqueness.
Hypothesis less_irrefl : ∀ x, less x x = false.

Let tied (x y : A) : Prop := less x y = false ∧ less y x = false.

Lemma sorted_classes_unique l1 l2 :
  StronglySorted ascending l1 → StronglySorted ascending l2 →
  (∀ x, filter (tied x) l1 = filter (tied x) l2) → l1 = l2.
Proof.
  intros Hs1. revert l2.
  induction Hs1 as [|a l1 Hs1 IH Ha]; intros l2 Hs2 Hcls.
  - destruct l2 as [|b l2]; [done|].
    specialize (Hcls b). rewrite filter_nil, filter_cons_True in Hcls; [done|].
    by split.
  - destruct Hs2 as [|b l2 Hs2 Hb].
    { specialize (Hcls a).
      rewrite filter_nil, filter_cons_True in Hcls; [done|]. by split. }
    assert (tied a b) as Hab.
    { split.
      - assert (a ∈ b :: l2) as Hin.
        { pose proof (Hcls a) as Hc.
          rewrite (filter_cons_True _ a) in Hc by by split.
          assert (a ∈ filter (tied a) (b :: l2)) as Hf
            by (rewrite <-Hc; left).
          by apply list_elem_of_filter in Hf as [_ ?]. }
        apply elem_of_cons in Hin as [->|Hin]; [done|].
        rewrite Forall_forall in Hb. by apply Hb.
      - assert (b ∈ a :: l1) as Hin.
        { pose proof (Hcls b) as Hc.
          rewrite (filter_cons_True _ b (l2)) in Hc by by split.
          assert (b ∈ filter (tied b) (a :: l1)) as Hf
            by (rewrite Hc; left).
          by apply list_elem_of_filter in Hf as [_ ?]. }
        apply elem_of_cons in Hin as [->|Hin]; [done|].
        rewrite Forall_forall in Ha. by apply Ha. }
    assert (a = b) as <-.
    { pose proof (Hcls a) as Hc.
      rewrite !filter_cons_True in Hc by (done || by split).
      by injection Hc. }
    f_equal. apply IH; [done|]. intros x. specialize (Hcls x).
    rewrite !filter_cons in Hcls.
    destruct (decide (tied x a)); [by injection Hcls|done].
Qed.
End Uniqueness.

End InsertionSortFacts.

(** ** [sort.Stable] on a [sortableResource] *)

Section IndexedSort.
Variable sortBy : string.
Implicit Types (p rest l : list groupResource) (x y : groupResource).

Lemma move_left_length {A : Type} (less : A → A → bool) (a : A) (prefix : list A) :
  length (move_left less a prefix) = S (length prefix).
Proof.
  induction prefix as [|b prefix IH]; simpl; [done|].
  destruct (less a b); simpl; by rewrite ?IH.
Qed.

(** With [y] at index [length p] and [x] right after it, [Swap] exchanges
    the two. *)
Lemma Swap_adjacent p x y rest :
  Swap (mkSortable (p ++ y :: x :: rest) sortBy) (S (length p)) (length p)
  = Some (mkSortable (p ++ x :: y :: rest) sortBy).
Proof.
  rewrite (Swap_Some _ _ _ x y); simpl.
  - f_equal. f_equal.
    rewrite (insert_app_r_alt p _ (length p)) by lia.
    rewrite (insert_app_r_alt p _ (S (length p))) by lia.
    by replace (length p - length p) with 0 by lia;
       replace (S (length p) - length p) with 1 by lia.
  - rewrite lookup_app_r by lia.
    by replace (S (length p) - length p) with 1 by lia.
  - rewrite lookup_app_r by lia.
    by replace (length p - length p) with 0 by lia.
Qed.

Lemma Less_adjacent p x y rest :
  Less (mkSortable (p ++ y :: x :: rest) sortBy) (S (length p)) (length p)
  = Some (before sortBy x y).
Proof.
  apply (Less_Some (mkSortable (p ++ y :: x :: rest) sortBy)); simpl.
  - rewrite lookup_app_r by lia.
    by replace (S (length p) - length p) with 1 by lia.
  - rewrite lookup_app_r by lia.
    by replace (length p - length p) with 0 by lia.
Qed.

(** The inner loop moves the element at index [length p] to its place in
    the sorted prefix [p]. *)
Lemma insertionSort_inner_spec p x rest :
  sort.insertionSort_inner (mkSortable (p ++ x :: rest) sortBy) 0 (length p)
  = Some (mkSortable
            (reverse (move_left (before sortBy) x (reverse p)) ++ rest) sortBy).
Proof.
  revert rest. induction p as [|y p IH] using rev_ind; intros rest.
  { done. }
  rewrite length_app, Nat.add_1_r, reverse_snoc. simpl.
  rewrite <-(app_assoc p [y]). simpl.
  change (sort.Less _ _ _)
    with (Less (mkSortable (p ++ y :: x :: rest) sortBy) (S (length p)) (length p)).
  rewrite Less_adjacent. simpl.
  destruct (before sortBy x y) eqn:Hxy.
  - change (sort.Swap _ _ _)
      with (Swap (mkSortable (p ++ y :: x :: rest) sortBy)
                 (S (length p)) (length p)).
    rewrite Swap_adjacent. simpl. rewrite IH.
    by rewrite reverse_cons, <-app_assoc.
  - by rewrite !reverse_cons, reverse_involutive, <-!app_assoc.
Qed.

Lemma insertionSort_outer_spec rest prefix :
  sort.insertionSort_outer (mkSortable (reverse prefix ++ rest) sortBy)
                           0 (length prefix) (length rest)
  = Some (mkSortable
            (reverse (fold_left (λ prefix x, move_left (before sortBy) x prefix)
                                rest prefix))
            sortBy).
Proof.
  revert prefix. induction rest as [|x rest IH]; intros prefix; simpl.
  { by rewrite app_nil_r. }
  rewrite <-(length_reverse prefix), insertionSort_inner_spec. simpl.
  rewrite reverse_involutive, length_reverse.
  rewrite <-(move_left_length (before sortBy) x prefix). apply IH.
Qed.

(** [sort.Stable] never indexes out of range, and leaves the slice that
    insertion sort on lists computes. *)
Lemma Stable_insertion_sorted l :
  sorts_to sortBy l (insertion_sorted (before sortBy) l).
Proof.
  unfold sorts_to, sort.Stable, sort.insertionSort, insertion_sorted.
  destruct l as [|x l]; [done|].
  change (sort.Len _) with (S (length l)).
  replace (S (length l) - (0 + 1)) with (length l) by lia.
  apply (insertionSort_outer_spec l [x]).
Qed.

End IndexedSort.

(** ** The filter loop *)

Lemma HasAll_subseteq (l items : list string) :
  sets.HasAll (sets.New l) items = true ↔ items ⊆ l.
Proof.
  unfold sets.HasAll, sets.Has, sets.New.
  induction items as [|item items IH]; simpl.
  - split; [|done]. intros _ x Hx. by apply elem_of_nil in Hx.
  - rewrite andb_true_iff, IH, bool_decide_eq_true, elem_of_list_to_set.
    split.
    + intros [Hitem Hitems] x [->|Hx]%elem_of_cons; auto.
    + intros Hsub. split; [apply Hsub; left|].
      intros x Hx. apply Hsub. by right.
Qed.

Lemma fold_left_invariant {A B : Type} (f : A → B → A) (I : A → Prop)
      (l : list B) (a : A) :
  I a → (∀ a b, I a → I (f a b)) → I (fold_left f l a).
Proof.
  intros Ha Hstep. revert a Ha.
  induction l as [|b l IH]; intros a Ha; simpl; [done|].
  by apply IH, Hstep.
Qed.

Lemma flatten_records (all : list metav1.APIResourceList)
      (acc : list metav1.APIResource) :
  fold_left (λ acc resource, acc ++ metav1.APIResources resource) all acc
  = acc ++ concat (metav1.APIResources <$> all).
Proof.
  revert acc. induction all as [|lst all IH]; intros acc; simpl.
  - by rewrite app_nil_r.
  - by rewrite IH, app_assoc.
Qed.

Section PipelineFacts.
Variable ParseGroupVersion : string → schema.GroupVersion * option error.
Implicit Types (o : Options) (gv : schema.GroupVersion)
         (r : metav1.APIResource) (e : groupResource).

Import APIResourceOptions.

(** A resource that passes the guards has verbs and meets every active
    predicate of the configuration. *)
Lemma not_skipped o gv r :
  skipped o gv r = false →
  has_verbs r
  ∧ satisfies o (mkGroupResource (schema.Group gv) (schema.String gv) r).
Proof.
  unfold skipped, has_verbs, satisfies. simpl.
  destruct (length (metav1.Verbs r) =? 0)%nat eqn:Hlen; [done|].
  destruct (groupChanged o && _) eqn:Hgroup; [done|].
  destruct (nsChanged o && _) eqn:Hns; [done|].
  destruct ((0 <? length (Verbs o))%nat && _) eqn:Hverbs; [done|].
  destruct ((0 <? length (Categories o))%nat && _) eqn:Hcats; [done|].
  intros _. split; [|split; [|split; [|split]]].
  - intros Hnil. by rewrite Hnil in Hlen.
  - intros Hon. rewrite Hon in Hgroup. simpl in Hgroup.
    apply bool_decide_eq_false in Hgroup.
    by destruct (decide (schema.Group gv = APIGroup o)) as [|Hne];
      [|destruct Hgroup].
  - intros Hon. rewrite Hon in Hns. simpl in Hns.
    apply bool_decide_eq_false in Hns.
    by destruct (decide (metav1.Namespaced r = Namespaced o)) as [|Hne];
      [|destruct Hns].
  - intros Hreq. destruct (Verbs o) as [|v vs] eqn:Hvs; [done|].
    simpl in Hverbs. apply negb_false_iff in Hverbs.
    by apply HasAll_subseteq.
  - intros Hreq. destruct (Categories o) as [|c cs] eqn:Hcs; [done|].
    simpl in Hcats. apply negb_false_iff in Hcats.
    by apply HasAll_subseteq.
Qed.

Lemma resource_loop o gv rs (base : list groupResource) :
  Forall (λ e, has_verbs (APIResource e) ∧ satisfies o e) base →
  let inner := fold_left (resource_step o gv) rs (base, []) in
  Forall (λ e, has_verbs (APIResource e) ∧ satisfies o e) inner.1
  ∧ APIResource <$> inner.1 = (APIResource <$> base) ++ inner.2.
Proof.
  intros Hbase. simpl.
  apply (fold_left_invariant (resource_step o gv)
           (λ st, Forall (λ e, has_verbs (APIResource e) ∧ satisfies o e) st.1
                  ∧ APIResource <$> st.1 = (APIResource <$> base) ++ st.2)).
  - simpl. by rewrite app_nil_r.
  - intros [es recs] r [Hes Hrecs]. unfold resource_step. simpl in *.
    destruct (skipped o gv r) eqn:Hskip; [done|]. simpl. split.
    + apply Forall_app. split; [done|]. constructor; [|done].
      by apply not_skipped.
    + by rewrite fmap_app, Hrecs, <-app_assoc.
Qed.

Lemma list_step_collected o st lst :
  collected o st → collected o (list_step ParseGroupVersion o st lst).
Proof.
  intros [Hes Hrecs]. unfold list_step.
  destruct (length (metav1.APIResources lst) =? 0)%nat; [done|].
  destruct (ParseGroupVersion (metav1.GroupVersion lst)) as [gv err].
  destruct (bool_decide (err ≠ None)); [done|].
  destruct (resource_loop o gv (metav1.APIResources lst) st.1 Hes)
    as [Hes' Hrecs'].
  split; simpl; [done|].
  by rewrite fmap_app, concat_app, Hrecs, Hrecs'; simpl; rewrite app_nil_r.
Qed.

Lemma collect_collected o lists : collected o (collect ParseGroupVersion o lists).
Proof.
  unfold collect. apply fold_left_invariant.
  - by split.
  - intros st lst. apply list_step_collected.
Qed.

(** A bucket whose group-version does not parse leaves the state alone. *)
Lemma list_step_unparsable o st lst :
  (ParseGroupVersion (metav1.GroupVersion lst)).2 ≠ None →
  list_step ParseGroupVersion o st lst = st.
Proof.
  intros Herr. unfold list_step.
  destruct (length (metav1.APIResources lst) =? 0)%nat; [done|].
  destruct (ParseGroupVersion (metav1.GroupVersion lst)) as [gv err].
  simpl in Herr. by rewrite bool_decide_eq_true_2.
Qed.

Lemma collect_unparsable o pre lst post :
  (ParseGroupVersion (metav1.GroupVersion lst)).2 ≠ None →
  collect ParseGroupVersion o (pre ++ lst :: post)
  = collect ParseGroupVersion o (pre ++ post).
Proof.
  intros Herr. unfold collect. rewrite !fold_left_app. simpl.
  by rewrite list_step_unparsable.
Qed.

End PipelineFacts.

(** ** Traces and results of computations *)

Section Effects.
Context {A B : Type}.
Implicit Types (m : M A) (k : A → M B) (ev : event).

Lemma trace_bind m k :
  trace (m ≫= k)
  = match result m with
    | Return a => trace m ++ trace (k a)
    | _ => trace m
    end.
Proof.
  unfold trace, result, mbind, M_bind, run_bind. by destruct m.2.
Qed.

Lemma result_bind m k :
  result (m ≫= k)
  = match result m with
    | Return a => result (k a)
    | Panic msg => Panic msg
    | Exit err => Exit err
    end.
Proof.
  unfold trace, result, mbind, M_bind, run_bind. by destruct m.2.
Qed.

Lemma bind_Return (a : A) k : mret a ≫= k = k a.
Proof.
  unfold mbind, M_bind, run_bind, mret, M_ret. simpl. by destruct (k a).
Qed.

Lemma bind_ext m k1 k2 : (∀ a, k1 a = k2 a) → m ≫= k1 = m ≫= k2.
Proof.
  intros Hk. unfold mbind, M_bind, run_bind.
  destruct m as [tr [a|msg|err]]; simpl; [|done..]. by rewrite Hk.
Qed.

Lemma in_trace_bind ev m k :
  ev ∈ trace (m ≫= k) →
  ev ∈ trace m ∨ ∃ a, result m = Return a ∧ ev ∈ trace (k a).
Proof.
  rewrite trace_bind. destruct (result m) as [a| |] eqn:Hm; [|by left..].
  intros [Hin|Hin]%elem_of_app; [by left|]. right. by exists a.
Qed.

Lemma in_trace_defer ev e m : ev ∈ trace (defer e m) → ev ∈ trace m ∨ ev = e.
Proof.
  unfold defer, trace. destruct m.2; simpl; [| |intros; by left].
  all: by intros [Hin|Hin%list_elem_of_singleton]%elem_of_app; [left|right].
Qed.

Lemma in_trace_deref ev (p : option A) : ev ∉ trace (deref p).
Proof. destruct p; apply not_elem_of_nil. Qed.

Lemma result_deref (p : option A) a : result (deref p) = Return a → p = Some a.
Proof. destruct p; simpl; [|done]. by intros [= ->]. Qed.

Lemma in_trace_in_range ev (r : option A) : ev ∉ trace (in_range r).
Proof. destruct r; apply not_elem_of_nil. Qed.

End Effects.

Lemma in_trace_flatten ev all : ev ∉ trace (flatten all).
Proof. destruct all; apply not_elem_of_nil. Qed.

Lemma result_flatten all flatList :
  result (flatten all) = Return flatList →
  ∃ first rest,
    all = first :: rest
    ∧ metav1.APIResources flatList = concat (metav1.APIResources <$> all)
    ∧ metav1.GroupVersion flatList = "".
Proof.
  destruct all as [|first rest]; [done|]. intros [= <-].
  exists first, rest. split; [done|]. split; [|done].
  cbn [metav1.APIResources]. by rewrite flatten_records.
Qed.

Lemma in_trace_headers_due ev f : ev ∉ trace (headers_due f).
Proof.
  unfold headers_due. destruct (PrintFlags.NoHeaders f); apply not_elem_of_nil.
Qed.

Lemma in_trace_printContextHeaders ev out output :
  ev ∈ trace (printContextHeaders out output) → ∃ text, ev = EvFprintf text.
Proof.
  unfold printContextHeaders, trace. simpl.
  intros ->%list_elem_of_singleton. eauto.
Qed.

(** ** What [RunAPIResources] prints and returns *)

Section RunFacts.
Variable ParseGroupVersion : string → schema.GroupVersion * option error.
Implicit Types (o : Options).

Import APIResourceOptions.

(** The only object handed to the printer is the flattened list of the
    buckets that survived ingestion. *)
Lemma RunAPIResources_prints o object :
  EvPrintObj object ∈ trace (RunAPIResources ParseGroupVersion o) →
  ∃ client first rest,
    discoveryClient o = Some client
    ∧ (collect ParseGroupVersion o (ServerPreferredResources client).1).2
      = first :: rest
    ∧ metav1.APIResources object
      = concat (metav1.APIResources <$> first :: rest)
    ∧ metav1.GroupVersion object = "".
Proof.
  unfold RunAPIResources.
  intros [Hin|[=]]%in_trace_defer.
  apply in_trace_bind in Hin as [Hin|(client & Hclient%result_deref & Hin)];
    [by apply in_trace_deref in Hin|].
  apply in_trace_bind in Hin as [Hin|(_ & _ & Hin)].
  { by destruct (negb (Cached o)); [apply list_elem_of_singleton in Hin
                                   |apply elem_of_nil in Hin]. }
  apply in_trace_bind in Hin as [Hin%list_elem_of_singleton|(_ & _ & Hin)];
    [done|].
  destruct (ServerPreferredResources client) as [lists err] eqn:Hfetch.
  destruct (collect ParseGroupVersion o lists) as [es all] eqn:Hcollect.
  apply in_trace_bind in Hin as [Hin|(due & _ & Hin)];
    [by apply in_trace_headers_due in Hin|].
  apply in_trace_bind in Hin as [Hin|(herr & _ & Hin)].
  { destruct due; [|by apply elem_of_nil in Hin].
    apply in_trace_bind in Hin as [Hin|(output & _ & Hin)];
      [by apply in_trace_deref in Hin|].
    by apply in_trace_printContextHeaders in Hin as [text [=]]. }
  destruct herr as [e|]; [by apply elem_of_nil in Hin|].
  apply in_trace_bind in Hin as [Hin|(flatList & Hflat & Hin)];
    [by apply in_trace_flatten in Hin|].
  apply in_trace_bind in Hin as [Hin|([sorted ?] & _ & Hin)];
    [by apply in_trace_in_range in Hin|].
  apply in_trace_bind in Hin as [Hin|(printObj & _ & Hin)];
    [by apply in_trace_deref in Hin|].
  apply in_trace_bind in Hin as [Hin%list_elem_of_singleton|(_ & _ & Hin)];
    [|by apply elem_of_nil in Hin].
  injection Hin as ->.
  apply result_flatten in Hflat as (first & rest & -> & Hrecords & Hgv).
  exists client, first, rest. rewrite Hfetch. simpl. by rewrite Hcollect.
Qed.

(** The records of a printed object are the records of the entries that
    the filter loop collected, in the order of the catalog, and the object
    has no group-version of its own. *)
Lemma printed_records_in_catalog_order o object :
  EvPrintObj object ∈ trace (RunAPIResources ParseGroupVersion o) →
  ∃ client,
    discoveryClient o = Some client
    ∧ metav1.APIResources object
      = APIResource
          <$> (collect ParseGroupVersion o (ServerPreferredResources client).1).1
    ∧ metav1.GroupVersion object = "".
Proof.
  intros (client & first & rest & Hclient & Hall & Hrecords & Hgv)
         %RunAPIResources_prints.
  exists client. split; [done|]. split; [|done].
  rewrite Hrecords, <-Hall.
  by destruct (collect_collected ParseGroupVersion o
                 (ServerPreferredResources client).1) as [_ ->].
Qed.

(** The sorted slice is not read after [sort.Stable] has returned: the
    run is the run without the sort. *)
Lemma RunAPIResources_without_sort o :
  RunAPIResources ParseGroupVersion o
  = defer EvFlush (
      client ← deref (discoveryClient o);
      (if negb (Cached o) then emit EvInvalidate else mret ());;
      emit EvServerPreferredResources;;
      let allResources :=
        (collect ParseGroupVersion o (ServerPreferredResources client).1).2 in
      due ← headers_due (PrintFlags o);
      err ← (if due : bool then
               output ← deref (PrintFlags.OutputFormat (PrintFlags o));
               printContextHeaders (Out (Streams o)) output
             else mret None);
      if err is Some e then mret (Some e) else
      flatList ← flatten allResources;
      printObj ← deref (PrintObj o);
      emit (EvPrintObj flatList);;
      mret (printObj flatList)).
Proof.
  unfold RunAPIResources. f_equal.
  apply bind_ext; intros client. apply bind_ext; intros _.
  apply bind_ext; intros _.
  destruct (ServerPreferredResources client) as [lists err]. simpl.
  destruct (collect ParseGroupVersion o lists) as [es all]. simpl.
  apply bind_ext; intros due. apply bind_ext; intros [e|]; [done|].
  apply bind_ext; intros flatList.
  rewrite (Stable_insertion_sorted (SortBy o) es).
  apply (bind_Return (mkSortable _ _)).
Qed.

End RunFacts.

(** ** The Sorter *)

Section SorterFacts.
Variable sortBy : string.
Implicit Types (l : list groupResource) (x y : groupResource).

(** [sort.Stable] returns, and leaves exactly one slice. *)
Lemma sorts_to_unique l l1 l2 :
  sorts_to sortBy l l1 → sorts_to sortBy l l2 → l1 = l2.
Proof. unfold sorts_to. intros -> [= ->]. done. Qed.

Lemma sorts_to_Permutation l l' : sorts_to sortBy l l' → l' ≡ₚ l.
Proof.
  intros Hl'.
  rewrite (sorts_to_unique l l' _ Hl' (Stable_insertion_sorted sortBy l)).
  apply insertion_sorted_Permutation.
Qed.

Lemma sorts_to_sorted l l' :
  sorts_to sortBy l l' → StronglySorted (λ x y, before sortBy y x = false) l'.
Proof.
  intros Hl'.
  rewrite (sorts_to_unique l l' _ Hl' (Stable_insertion_sorted sortBy l)).
  apply insertion_sorted_sorted; [apply before_asym|apply before_negtrans].
Qed.

Lemma sorts_to_filter l l' x :
  sorts_to sortBy l l' →
  filter (same_key sortBy x) l' = filter (same_key sortBy x) l.
Proof.
  intros Hl'.
  rewrite (sorts_to_unique l l' _ Hl' (Stable_insertion_sorted sortBy l)).
  apply (insertion_sorted_filter (before sortBy) (same_key sortBy x)).
  intros y z [Hp Hn] [Hp' Hn']. apply same_key_not_before.
  split; congruence.
Qed.

Lemma not_before_ordered x y :
  before sortBy y x = false → ordered_by (primary sortBy) x y.
Proof.
  rewrite before_false. unfold key_compare, ordered_by, non_decreasing, entry_name.
  rewrite (String.compare_antisym (primary sortBy x)).
  intros Hcmp. split.
  - destruct (String.compare (primary sortBy y) (primary sortBy x)); simpl;
      done.
  - intros Heq. rewrite Heq, string_compare_refl in Hcmp.
    rewrite String.compare_antisym.
    by destruct (String.compare (metav1.Name (APIResource y)) _).
Qed.

Lemma sorts_to_ordered l l' :
  sorts_to sortBy l l' → StronglySorted (ordered_by (primary sortBy)) l'.
Proof.
  intros Hs%sorts_to_sorted.
  induction Hs as [|x s Hs IH Hx]; constructor; [done|].
  eapply Forall_impl; [exact Hx|]. intros y. apply not_before_ordered.
Qed.

(** Whatever algorithm [sort.Stable] runs, a result that is in order and
    keeps the arrival order inside every class of identical keys is the
    one computed here. *)
Lemma stable_sort_unique l l' sorted :
  sorts_to sortBy l sorted →
  StronglySorted (λ x y, before sortBy y x = false) l' →
  (∀ x, filter (same_key sortBy x) l' = filter (same_key sortBy x) l) →
  l' = sorted.
Proof.
  intros Hsorted Horder Hclasses.
  assert (∀ x y,
            before sortBy x y = false ∧ before sortBy y x = false
            ↔ same_key sortBy x y) as Htied.
  { intros x y. split.
    - intros [H1 H2]. by apply not_before_same_key.
    - intros Hk. split; apply same_key_not_before; [done|].
      destruct Hk. by split. }
  apply (sorted_classes_unique (before sortBy)).
  - apply before_irrefl.
  - done.
  - by eapply sorts_to_sorted.
  - intros x.
    rewrite (list_filter_iff _ (same_key sortBy x)) by apply Htied.
    rewrite (list_filter_iff _ (same_key sortBy x) sorted) by apply Htied.
    by rewrite Hclasses, (sorts_to_filter l sorted).
Qed.

End SorterFacts.

(** ** The claims about filtering and sorting *)

(** C1. Every entry that the filter loop of [RunAPIResources] appends to
    [resources] satisfies all active predicates of the configuration:
    group equality when the group filter was set, equality of the
    namespaced flag when that filter was set, and inclusion of the
    requested verbs and categories when those lists are non-empty.  The
    same holds for the slice that [sort.Stable] leaves. *)
Theorem filtered_entries_satisfy_predicates
        (ParseGroupVersion : string → schema.GroupVersion * option error)
        (o : Options) (lists : list metav1.APIResourceList) :
  Forall (satisfies o) (collect ParseGroupVersion o lists).1
  ∧ ∃ sorted,
      sorts_to (APIResourceOptions.SortBy o)
               (collect ParseGroupVersion o lists).1 sorted
      ∧ Forall (satisfies o) sorted.
Proof.
  assert (Forall (satisfies o) (collect ParseGroupVersion o lists).1) as Hall.
  { destruct (collect_collected ParseGroupVersion o lists) as [Hes _].
    eapply Forall_impl; [exact Hes|]. by intros e [_ He]. }
  split; [done|]. eexists. split; [apply Stable_insertion_sorted|].
  by rewrite insertion_sorted_Permutation.
Qed.

(** C3. Sorting by [name] yields names that are non-decreasing byte-wise;
    sorting by [kind] yields non-decreasing kinds, and entries of equal
    kind are ordered by name; sorting with the empty key orders by the
    owning API group with the name as tie-break.  In each case
    [sort.Stable] returns, its result is a rearrangement of the input, and
    the order holds between any two entries of the result, adjacent ones
    in particular. *)
Theorem sorted_by_requested_key (l : list groupResource) :
  (∃ sorted,
     sorts_to "name" l sorted ∧ sorted ≡ₚ l
     ∧ StronglySorted (λ x y, non_decreasing (entry_name x) (entry_name y))
                      sorted)
  ∧ (∃ sorted,
       sorts_to "kind" l sorted ∧ sorted ≡ₚ l
       ∧ StronglySorted (ordered_by entry_kind) sorted)
  ∧ (∃ sorted,
       sorts_to "" l sorted ∧ sorted ≡ₚ l
       ∧ StronglySorted (ordered_by APIGroup) sorted).
Proof.
  split; [|split]; eexists;
    (split; [apply Stable_insertion_sorted|]);
    (split; [apply insertion_sorted_Permutation|]).
  - pose proof (sorts_to_ordered "name" l _ (Stable_insertion_sorted "name" l))
      as Hs.
    induction Hs as [|x s Hs IH Hx]; constructor; [done|].
    eapply Forall_impl; [exact Hx|]. by intros y [Hy _].
  - apply (sorts_to_ordered "kind" l), Stable_insertion_sorted.
  - apply (sorts_to_ordered "" l), Stable_insertion_sorted.
Qed.

(** C4. The sort is stable: for every sort key, [sort.Stable] returns a
    slice in which the entries whose full comparison key (primary field
    and resource name) is identical to that of a given entry appear in the
    order they had in the input. *)
Theorem sort_is_stable (sortBy : string) (l : list groupResource) :
  ∃ sorted,
    sorts_to sortBy l sorted
    ∧ ∀ x, filter (same_key sortBy x) sorted = filter (same_key sortBy x) l.
Proof.
  eexists. split; [apply Stable_insertion_sorted|].
  intros x. by apply sorts_to_filter, Stable_insertion_sorted.
Qed.

(** ** The claims about the run as a whole *)

(** C7. A resource whose verb set is empty never appears in any output:
    not among the entries collected by the filter loop, not in the slice
    that [sort.Stable] leaves, and not among the records of any object that
    [RunAPIResources] hands to the printer. *)
Theorem verbless_resources_never_appear
        (ParseGroupVersion : string → schema.GroupVersion * option error)
        (o : Options) (lists : list metav1.APIResourceList) :
  Forall (λ e, has_verbs (APIResource e)) (collect ParseGroupVersion o lists).1
  ∧ (∃ sorted,
       sorts_to (APIResourceOptions.SortBy o)
                (collect ParseGroupVersion o lists).1 sorted
       ∧ Forall (λ e, has_verbs (APIResource e)) sorted)
  ∧ Forall (prints_only has_verbs) (trace (RunAPIResources ParseGroupVersion o)).
Proof.
  assert (∀ lists,
            Forall (λ e, has_verbs (APIResource e))
                   (collect ParseGroupVersion o lists).1) as Hall.
  { intros ls. destruct (collect_collected ParseGroupVersion o ls) as [Hes _].
    eapply Forall_impl; [exact Hes|]. by intros e [He _]. }
  split; [done|]. split.
  { eexists. split; [apply Stable_insertion_sorted|].
    by rewrite insertion_sorted_Permutation. }
  apply Forall_forall. intros [| | | |object|] Hev; try exact I. simpl.
  apply RunAPIResources_prints
    in Hev as (client & first & rest & _ & Hall' & -> & _).
  rewrite <-Hall'.
  destruct (collect_collected ParseGroupVersion o
              (ServerPreferredResources client).1) as [_ ->].
  apply Forall_fmap. apply Hall.
Qed.

(** C9. A bucket whose group-version string fails to parse is skipped:
    the run on a catalog that contains it, at any position, is the run on
    the catalog without it, trace, printed object and returned error
    included. *)
Theorem unparsable_bucket_is_ignored
        (ParseGroupVersion : string → schema.GroupVersion * option error)
        (o : Options) (pre post : list metav1.APIResourceList)
        (lst : metav1.APIResourceList) (err : option error) :
  (ParseGroupVersion (metav1.GroupVersion lst)).2 ≠ None →
  RunAPIResources ParseGroupVersion (with_catalog o (pre ++ lst :: post) err)
  = RunAPIResources ParseGroupVersion (with_catalog o (pre ++ post) err).
Proof.
  intros Hbad. destruct o as [sb g n v c cs gc nc d s f p].
  unfold RunAPIResources, deref, with_catalog.
  cbn [APIResourceOptions.discoveryClient APIResourceOptions.Cached
       APIResourceOptions.PrintFlags APIResourceOptions.Streams
       APIResourceOptions.PrintObj APIResourceOptions.SortBy].
  rewrite !bind_Return. cbn [ServerPreferredResources].
  by rewrite (collect_unparsable ParseGroupVersion _ pre lst post Hbad).
Qed.

(** C10. The object passed to the printer does not depend on the sort
    key: two runs that differ only in [SortBy] make the same calls, print
    the same object and end the same way. *)
Theorem printed_object_ignores_sort_key
        (ParseGroupVersion : string → schema.GroupVersion * option error)
        (o : Options) (sortBy1 sortBy2 : string) :
  RunAPIResources ParseGroupVersion (with_SortBy o sortBy1)
  = RunAPIResources ParseGroupVersion (with_SortBy o sortBy2).
Proof. rewrite !RunAPIResources_without_sort. by destruct o. Qed.

(** ** Validation and the command's run sequence *)

Lemma Validate_accepts o :
  APIResourceOptions.SortBy o ∈ [""; "name"; "kind"] → Validate o = None.
Proof.
  unfold Validate. intros Hin.
  destruct (0 <? String.length (APIResourceOptions.SortBy o))%nat; [|done].
  unfold sets.Has, sets.New. rewrite bool_decide_eq_true_2; [done|].
  by apply elem_of_list_to_set.
Qed.

Lemma Validate_rejects o :
  APIResourceOptions.SortBy o ∉ [""; "name"; "kind"] →
  Validate o = Some (Errorf "--sort-by accepts only name or kind").
Proof.
  unfold Validate. intros Hnotin.
  destruct (APIResourceOptions.SortBy o) as [|c s] eqn:Hsort.
  { destruct Hnotin. left. }
  simpl. unfold sets.Has, sets.New. rewrite bool_decide_eq_false_2; [done|].
  by rewrite elem_of_list_to_set.
Qed.

Section CommandFacts.
Variable WrapToPrinter :
  option ResourcePrinter → option ResourcePrinter * option error.

Ltac complete_done :=
  eexists _, _; split; [reflexivity|]; split; [reflexivity|];
  repeat constructor.

(** [Complete] returns, keeps the sort key, and reaches for nothing but
    the discovery client's constructor. *)
Lemma Complete_returns o restClientGetter cmd args :
  ∃ o' err,
    result (Complete WrapToPrinter o restClientGetter cmd args)
    = Return (o', err)
    ∧ APIResourceOptions.SortBy o' = APIResourceOptions.SortBy o
    ∧ Forall (λ ev, ev = EvToDiscoveryClient)
             (trace (Complete WrapToPrinter o restClientGetter cmd args)).
Proof.
  unfold Complete.
  destruct (negb (length args =? 0)%nat).
  { complete_done. }
  destruct (ToDiscoveryClient restClientGetter) as [client [e|]].
  { complete_done. }
  cbn [APIResourceOptions.PrintFlags].
  destruct (PrintFlags.OutputFormat (APIResourceOptions.PrintFlags o)).
  2:{ complete_done. }
  destruct (ToPrinter (APIResourceOptions.PrintFlags o))
    as [flags [printer [e|]]].
  { complete_done. }
  destruct (WrapToPrinter printer) as [printer' [e|]].
  all: complete_done.
Qed.

End CommandFacts.

(** C8. [Validate] returns its configuration error exactly when the sort
    key is neither empty nor [name] nor [kind].  With such a key the
    command ends in an error exit before [RunAPIResources] starts: the
    catalog is neither invalidated nor fetched and nothing is written or
    printed; when [Complete] itself raised no error, the exit carries the
    error of [Validate]. *)
Theorem invalid_sort_key_stops_before_fetch
        (ParseGroupVersion : string → schema.GroupVersion * option error)
        (WrapToPrinter :
           option ResourcePrinter → option ResourcePrinter * option error)
        (o : Options) (restClientGetter : RESTClientGetter) (cmd : Command)
        (args : list string) :
  (Validate o = None ↔ APIResourceOptions.SortBy o ∈ [""; "name"; "kind"])
  ∧ (Validate o ≠ None →
     Validate o = Some (Errorf "--sort-by accepts only name or kind")
     ∧ (∃ err,
          result (Run ParseGroupVersion WrapToPrinter o restClientGetter cmd args)
          = Exit err
          ∧ ((∃ o', result (Complete WrapToPrinter o restClientGetter cmd args)
                    = Return (o', None)) →
             err = Errorf "--sort-by accepts only name or kind"))
     ∧ Forall (λ ev, touches_catalog_or_output ev = false)
              (trace (Run ParseGroupVersion WrapToPrinter o restClientGetter
                          cmd args))).
Proof.
  assert (Validate o ≠ None → APIResourceOptions.SortBy o ∉ [""; "name"; "kind"])
    as Hbad.
  { intros Hv Hin. by apply Hv, Validate_accepts. }
  split.
  { split; [|apply Validate_accepts].
    intros Hnone.
    destruct (decide (APIResourceOptions.SortBy o ∈ [""; "name"; "kind"]))
      as [|Hnotin]; [done|].
    by rewrite (Validate_rejects o Hnotin) in Hnone. }
  intros Hv. specialize (Hbad Hv). split; [by apply Validate_rejects|].
  destruct (Complete_returns WrapToPrinter o restClientGetter cmd args)
    as (o' & err & Hres & Hsort & Htrace).
  assert (Validate o' = Some (Errorf "--sort-by accepts only name or kind"))
    as Hv'.
  { apply Validate_rejects. by rewrite Hsort. }
  unfold Run. rewrite result_bind, trace_bind, Hres.
  destruct err as [e|]; simpl.
  - split.
    + exists e. split; [done|]. by intros [o'' [=]].
    + rewrite app_nil_r. eapply Forall_impl; [exact Htrace|]. by intros ev ->.
  - rewrite Hv'. simpl. split.
    + eexists. split; [done|]. done.
    + rewrite app_nil_r. eapply Forall_impl; [exact Htrace|]. by intros ev ->.
Qed.

(** ** Runs on concrete catalogs *)

(** C8, on [--sort-by=bogus]: the command exits on the error of
    [Validate] after constructing the discovery client and nothing else. *)
Lemma bogus_sort_key_exits :
  Validate (with_SortBy fresh_options "bogus")
  = Some (Errorf "--sort-by accepts only name or kind")
  ∧ (∃ err,
       result (Run schema.ParseGroupVersion plain_wrapper
                   (with_SortBy fresh_options "bogus")
                   (getter_for scenarioA None) no_flag_changed [])
       = Exit err
       ∧ ((∃ o', result (Complete plain_wrapper
                           (with_SortBy fresh_options "bogus")
                           (getter_for scenarioA None) no_flag_changed [])
                 = Return (o', None)) →
          err = Errorf "--sort-by accepts only name or kind"))
  ∧ Forall (λ ev, touches_catalog_or_output ev = false)
           (trace (Run schema.ParseGroupVersion plain_wrapper
                       (with_SortBy fresh_options "bogus")
                       (getter_for scenarioA None) no_flag_changed [])).
Proof.
  apply (invalid_sort_key_stops_before_fetch
           schema.ParseGroupVersion plain_wrapper
           (with_SortBy fresh_options "bogus")
           (getter_for scenarioA None) no_flag_changed []).
  vm_compute. discriminate.
Defined.

(** C9, on scenario A with a bucket named [a/b/c] in the middle. *)
Lemma malformed_bucket_run :
  RunAPIResources schema.ParseGroupVersion
    (with_catalog (json_options [] None)
       ([bucket "apps/v1" [deployments]] ++ bucket "a/b/c" [namespaces]
        :: [bucket "v1" [namespaces]]) None)
  = RunAPIResources schema.ParseGroupVersion
      (with_catalog (json_options [] None)
         ([bucket "apps/v1" [deployments]] ++ [bucket "v1" [namespaces]])
         None).
Proof.
  apply (unparsable_bucket_is_ignored schema.ParseGroupVersion
           (json_options [] None) [bucket "apps/v1" [deployments]]
           [bucket "v1" [namespaces]] (bucket "a/b/c" [namespaces]) None).
  vm_compute. discriminate.
Defined.

(** C2. On scenario A with the empty sort key and [-o json], the object
    handed to the printer lists [deployments] before [namespaces], the
    order of the catalog, while the slice that [sort.Stable] leaves has
    [namespaces] first; the object and its records hold no group-version,
    so none of the tuples of the entries that survived filtering can be
    read back from it. *)
Theorem structured_output_is_unsorted_and_drops_group_version :
  ∃ object sorted,
    RunAPIResources schema.ParseGroupVersion (json_options scenarioA None)
    = ([EvInvalidate; EvServerPreferredResources; EvPrintObj object; EvFlush],
       Return None)
    ∧ sorts_to ""
        (collect schema.ParseGroupVersion (json_options scenarioA None)
                 scenarioA).1
        sorted
    ∧ metav1.Name <$> metav1.APIResources object = ["deployments"; "namespaces"]
    ∧ entry_name <$> sorted = ["namespaces"; "deployments"]
    ∧ APIGroupVersion <$> sorted = ["v1"; "apps/v1"]
    ∧ metav1.GroupVersion object = ""
    ∧ (record_tuple <$> metav1.APIResources object) ## (entry_tuple <$> sorted).
Proof.
  eexists _, _. split; [vm_compute; reflexivity|].
  split; [vm_compute; reflexivity|].
  repeat split; try (vm_compute; reflexivity).
  intros t Hrecord Hentry. vm_compute in Hrecord, Hentry.
  repeat match goal with
         | H : list_elem_of _ (_ :: _) |- _ => apply elem_of_cons in H as [H|H]
         | H : _ ∈ _ :: _ |- _ => apply elem_of_cons in H as [H|H]
         | H : _ ∈ [] |- _ => by apply elem_of_nil in H
         end; subst t; discriminate.
Qed.

(** C5. On the empty catalog, and on a catalog all of whose buckets are
    dropped at ingestion, [RunAPIResources] faults on [allResources[0]]
    instead of printing an empty list; with the default table format the
    header row has been written by then. *)
Theorem empty_catalog_faults :
  RunAPIResources schema.ParseGroupVersion (json_options [] None)
  = ([EvInvalidate; EvServerPreferredResources; EvFlush],
     Panic "index out of range [0] with length 0")
  ∧ RunAPIResources schema.ParseGroupVersion
      (json_options [bucket "v1" []; bucket "a/b/c" [namespaces]] None)
    = ([EvInvalidate; EvServerPreferredResources; EvFlush],
       Panic "index out of range [0] with length 0")
  ∧ RunAPIResources schema.ParseGroupVersion
      (with_catalog fresh_options [] None)
    = ([EvInvalidate; EvServerPreferredResources;
        EvFprintf
          (String.concat (String (ascii_of_nat 9) "")
                         ["NAME"; "SHORTNAMES"; "APIVERSION"; "NAMESPACED"; "KIND"]
           +:+ String (ascii_of_nat 10) "");
        EvFlush],
       Panic "index out of range [0] with length 0").
Proof. repeat split; vm_compute; reflexivity. Qed.

(** C6. When the fetch returns an error together with scenario A, the
    partial data is filtered and printed, and [RunAPIResources] returns
    nil: the fetch error is appended to [errs] and never read again.  For
    every catalog the run with a fetch error is the run without one. *)
Theorem fetch_error_is_not_returned :
  (∃ object,
     RunAPIResources schema.ParseGroupVersion
       (json_options scenarioA (Some (ExternalError "the server is unavailable")))
     = ([EvInvalidate; EvServerPreferredResources; EvPrintObj object; EvFlush],
        Return None)
     ∧ metav1.Name <$> metav1.APIResources object
       = ["deployments"; "namespaces"])
  ∧ ∀ (o : Options) (lists : list metav1.APIResourceList) (err : error),
      RunAPIResources schema.ParseGroupVersion (with_catalog o lists (Some err))
      = RunAPIResources schema.ParseGroupVersion (with_catalog o lists None).
Proof.
  split.
  - eexists. split; vm_compute; reflexivity.
  - intros o lists err. by destruct o.
Qed.

(** * Further properties of the code *)

(** ** The filter loop as a whole *)

Lemma guard_eq_false (changed : bool) {A : Type} `{EqDecision A} (a b : A) :
  changed && bool_decide (a ≠ b) = false ↔ (changed = true → b = a).
Proof.
  destruct changed; simpl.
  - rewrite bool_decide_eq_false. split.
    + intros Hnn _. by destruct (decide (a = b)) as [->|Hne]; [|destruct Hnn].
    + intros Heq Hne. by rewrite Heq in Hne.
  - by split.
Qed.

Lemma guard_HasAll_false (requested have : list string) :
  (0 <? length requested)%nat && negb (sets.HasAll (sets.New have) requested)
  = false
  ↔ (requested ≠ [] → requested ⊆ have).
Proof.
  destruct requested as [|x requested]; simpl; [by split|].
  rewrite negb_false_iff. change (sets.Has (sets.New have) x && _)
    with (sets.HasAll (sets.New have) (x :: requested)).
  rewrite HasAll_subseteq. split; [by intros ? _|]. intros Hsub. by apply Hsub.
Qed.

Lemma elem_of_concat {A : Type} (x : A) (ls : list (list A)) :
  x ∈ concat ls ↔ ∃ l, l ∈ ls ∧ x ∈ l.
Proof.
  induction ls as [|l ls IH]; simpl.
  - split; [by intros ?%elem_of_nil|]. by intros (l & ?%elem_of_nil & _).
  - rewrite elem_of_app, IH. split.
    + intros [Hx|(l' & Hl' & Hx)]; [exists l|exists l']; split; try done;
        [left|by right].
    + intros (l' & [->|Hl']%elem_of_cons & Hx); [by left|]. right. by exists l'.
Qed.

Lemma filter_sublist_mono {A : Type} (P Q : A → Prop)
      `{!∀ x, Decision (P x)} `{!∀ x, Decision (Q x)} (l : list A) :
  (∀ x, P x → Q x) → filter P l `sublist_of` filter Q l.
Proof.
  intros HPQ. induction l as [|x l IH]; [done|]. rewrite !filter_cons.
  destruct (decide (P x)) as [HP|HP].
  - rewrite decide_True by auto. by apply sublist_skip.
  - destruct (decide (Q x)); [by apply sublist_cons|done].
Qed.

Section FilterLoop.
Variable ParseGroupVersion : string → schema.GroupVersion * option error.
Implicit Types (o : Options) (gv : schema.GroupVersion)
         (r : metav1.APIResource) (e : groupResource)
         (lst : metav1.APIResourceList).

Import APIResourceOptions.

(** A resource passes the five guards exactly when it has verbs and meets
    every active predicate. *)
Lemma skipped_false_iff o gv r :
  skipped o gv r = false
  ↔ has_verbs r
    ∧ satisfies o (mkGroupResource (schema.Group gv) (schema.String gv) r).
Proof.
  unfold has_verbs, satisfies. simpl.
  rewrite <-(guard_eq_false (groupChanged o)), <-(guard_eq_false (nsChanged o)).
  rewrite <-!guard_HasAll_false.
  assert (metav1.Verbs r ≠ [] ↔ (length (metav1.Verbs r) =? 0)%nat = false)
    as ->.
  { by destruct (metav1.Verbs r). }
  unfold skipped.
  destruct (length (metav1.Verbs r) =? 0)%nat; [intuition congruence|].
  destruct (groupChanged o && _); [intuition congruence|].
  destruct (nsChanged o && _); [intuition congruence|].
  destruct ((0 <? length (Verbs o))%nat && _); [intuition congruence|].
  destruct ((0 <? length (Categories o))%nat && _); intuition congruence.
Qed.

Lemma resource_loop_spec o gv rs
      (st : list groupResource * list metav1.APIResource) :
  fold_left (resource_step o gv) rs st
  = (st.1 ++ (mkGroupResource (schema.Group gv) (schema.String gv)
                <$> filter (λ r, skipped o gv r = false) rs),
     st.2 ++ filter (λ r, skipped o gv r = false) rs).
Proof.
  revert st. induction rs as [|r rs IH]; intros [es recs]; simpl.
  { by rewrite !app_nil_r. }
  rewrite IH. unfold resource_step. rewrite filter_cons.
  destruct (skipped o gv r); simpl; [done|].
  by rewrite <-!app_assoc.
Qed.

Lemma list_step_spec o st lst :
  list_step ParseGroupVersion o st lst
  = if decide (ingested ParseGroupVersion lst) then
      (st.1 ++ (entry_of ParseGroupVersion lst <$> kept ParseGroupVersion o lst),
       st.2 ++ [metav1.mkAPIResourceList
                  (metav1.mkTypeMeta "APIResourceList" "v1")
                  (schema.String (ParseGroupVersion (metav1.GroupVersion lst)).1)
                  (kept ParseGroupVersion o lst)])
    else st.
Proof.
  destruct (decide (ingested ParseGroupVersion lst)) as [[Hne Hparse]|Hnot];
    unfold list_step, kept, entry_of.
  - replace (length (metav1.APIResources lst) =? 0)%nat with false
      by (by destruct (metav1.APIResources lst)).
    destruct (ParseGroupVersion (metav1.GroupVersion lst)) as [gv err].
    simpl in Hparse. subst err. simpl. by rewrite resource_loop_spec.
  - destruct (length (metav1.APIResources lst) =? 0)%nat eqn:Hlen; [done|].
    destruct (ParseGroupVersion (metav1.GroupVersion lst)) as [gv [err|]] eqn:Hp;
      simpl; [done|].
    destruct Hnot. split; [|by rewrite Hp].
    intros Hnil. by rewrite Hnil in Hlen.
Qed.

Lemma collect_from_spec o lists st :
  fold_left (list_step ParseGroupVersion o) lists st
  = (st.1 ++ concat ((λ lst, entry_of ParseGroupVersion lst
                               <$> kept ParseGroupVersion o lst)
                       <$> filter (ingested ParseGroupVersion) lists),
     st.2 ++ ((λ lst, metav1.mkAPIResourceList
                        (metav1.mkTypeMeta "APIResourceList" "v1")
                        (schema.String
                           (ParseGroupVersion (metav1.GroupVersion lst)).1)
                        (kept ParseGroupVersion o lst))
                <$> filter (ingested ParseGroupVersion) lists)).
Proof.
  revert st. induction lists as [|lst lists IH]; intros [es all]; simpl.
  { by rewrite !app_nil_r. }
  rewrite IH, list_step_spec, filter_cons.
  destruct (decide (ingested ParseGroupVersion lst)); simpl; [|done].
  by rewrite <-!app_assoc.
Qed.

(** The two loops, read as one pass: the buckets that are ingested, in
    catalog order, each with the resources it keeps, in bucket order. *)
Lemma collect_spec o lists :
  collect ParseGroupVersion o lists
  = (concat ((λ lst, entry_of ParseGroupVersion lst
                       <$> kept ParseGroupVersion o lst)
               <$> filter (ingested ParseGroupVersion) lists),
     (λ lst, metav1.mkAPIResourceList
               (metav1.mkTypeMeta "APIResourceList" "v1")
               (schema.String (ParseGroupVersion (metav1.GroupVersion lst)).1)
               (kept ParseGroupVersion o lst))
       <$> filter (ingested ParseGroupVersion) lists).
Proof. unfold collect. by rewrite collect_from_spec. Qed.

Lemma records_of_entries lst (rs : list metav1.APIResource) :
  APIResource <$> (entry_of ParseGroupVersion lst <$> rs) = rs.
Proof. induction rs as [|r rs IH]; csimpl; [done|]. by rewrite IH. Qed.

(** X1. An entry is collected exactly when it comes from a resource with
    verbs, listed in a bucket of the catalog whose group-version parses,
    and meets every active predicate; it then carries the group and the
    group-version string of that bucket.  So the filter loses no resource
    that qualifies. *)
Theorem entry_collected_iff o lists e :
  e ∈ (collect ParseGroupVersion o lists).1
  ↔ ∃ lst r,
      lst ∈ lists
      ∧ (ParseGroupVersion (metav1.GroupVersion lst)).2 = None
      ∧ r ∈ metav1.APIResources lst
      ∧ has_verbs r
      ∧ e = entry_of ParseGroupVersion lst r
      ∧ satisfies o e.
Proof.
  rewrite collect_spec. simpl. rewrite elem_of_concat. split.
  - intros (es & (lst & -> & [Hing Hlst]%list_elem_of_filter)%list_elem_of_fmap
            & (r & -> & [Hkeep Hr]%list_elem_of_filter)%list_elem_of_fmap).
    apply skipped_false_iff in Hkeep as [Hverbs Hsat].
    exists lst, r. by destruct Hing.
  - intros (lst & r & Hlst & Hparse & Hr & Hverbs & -> & Hsat).
    exists (entry_of ParseGroupVersion lst <$> kept ParseGroupVersion o lst).
    split.
    + apply list_elem_of_fmap. exists lst. split; [done|].
      apply list_elem_of_filter. split; [|done]. split; [|done].
      intros Hnil. rewrite Hnil in Hr. by apply elem_of_nil in Hr.
    + apply list_elem_of_fmap_2, list_elem_of_filter. split; [|done].
      by apply skipped_false_iff.
Qed.

(** X2. The filter loop only drops: the records of the collected entries,
    in their order, are a subsequence of the records of the catalog read
    bucket after bucket, so nothing is reordered or duplicated. *)
Theorem entries_follow_catalog_order o lists :
  APIResource <$> (collect ParseGroupVersion o lists).1
  `sublist_of` concat (metav1.APIResources <$> lists).
Proof.
  rewrite collect_spec. simpl.
  induction lists as [|lst lists IH]; simpl; [done|].
  rewrite filter_cons.
  destruct (decide (ingested ParseGroupVersion lst)); simpl.
  - rewrite fmap_app. apply sublist_app; [|done].
    rewrite records_of_entries. apply sublist_filter.
  - by apply sublist_inserts_l.
Qed.

Lemma collect_entries_sublist o o' lists :
  (∀ gv r, skipped o' gv r = false → skipped o gv r = false) →
  (collect ParseGroupVersion o' lists).1
  `sublist_of` (collect ParseGroupVersion o lists).1.
Proof.
  intros Hskip. rewrite !collect_spec. simpl.
  induction (filter (ingested ParseGroupVersion) lists) as [|lst ls IH];
    simpl; [done|].
  apply sublist_app; [|done]. apply fmap_sublist.
  apply filter_sublist_mono. intros r. apply Hskip.
Qed.

Lemma collect_ext o o' lists :
  (∀ gv r, skipped o' gv r = skipped o gv r) →
  collect ParseGroupVersion o' lists = collect ParseGroupVersion o lists.
Proof.
  intros Hskip. rewrite !collect_spec.
  assert (∀ lst, kept ParseGroupVersion o' lst = kept ParseGroupVersion o lst)
    as Hkept.
  { intros lst. unfold kept. apply list_filter_iff. intros r.
    by rewrite Hskip. }
  f_equal; [f_equal|]; apply list_fmap_ext; intros i lst _;
    by rewrite Hkept.
Qed.

(** X3. A filter that was not set on the command line is ignored: when
    neither [--api-group] nor [--namespaced] was changed, the values held
    in [APIGroup] and [Namespaced] (true by default) have no influence on
    what is collected, so resources of both scopes and of every group
    pass. *)
Theorem unset_filters_are_ignored o lists (group group' : string)
        (namespaced namespaced' : bool) :
  collect ParseGroupVersion
          (with_Namespaced (with_APIGroup o group false) namespaced false) lists
  = collect ParseGroupVersion
            (with_Namespaced (with_APIGroup o group' false) namespaced' false)
            lists.
Proof. apply collect_ext. intros gv r. by destruct o. Qed.

(** X4. Requiring more can only remove entries: if every verb and every
    category requested under [o] is also requested by the longer lists,
    the entries collected with the longer lists are a subsequence of the
    entries collected under [o]. *)
Theorem more_requirements_fewer_entries o lists (verbs categories : list string) :
  Verbs o ⊆ verbs → Categories o ⊆ categories →
  (collect ParseGroupVersion (with_Categories (with_Verbs o verbs) categories)
           lists).1
  `sublist_of` (collect ParseGroupVersion o lists).1.
Proof.
  intros Hverbs Hcats. apply collect_entries_sublist. intros gv r.
  rewrite !skipped_false_iff. intros [Hhas Hsat]. split; [done|].
  destruct o as [sb g n v c cs gc nc d s f p].
  destruct Hsat as (Hg & Hn & Hv & Hc). simpl in *.
  split; [done|]. split; [done|]. split.
  - intros Hne. transitivity verbs; [done|]. apply Hv.
    intros ->. destruct v as [|x v]; [done|].
    by specialize (Hverbs x ltac:(left)); apply elem_of_nil in Hverbs.
  - intros Hne. transitivity categories; [done|]. apply Hc.
    intros ->. destruct cs as [|x cs]; [done|].
    by specialize (Hcats x ltac:(left)); apply elem_of_nil in Hcats.
Qed.

(** X5. The requested verbs and categories act as sets: two
    configurations whose verb lists have the same elements and whose
    category lists have the same elements, in any order and with any
    repetition, collect the same entries and the same buckets. *)
Theorem requested_lists_act_as_sets o lists (verbs categories : list string) :
  (∀ v, v ∈ verbs ↔ v ∈ Verbs o) →
  (∀ c, c ∈ categories ↔ c ∈ Categories o) →
  collect ParseGroupVersion (with_Categories (with_Verbs o verbs) categories)
          lists
  = collect ParseGroupVersion o lists.
Proof.
  intros Hverbs Hcats. apply collect_ext. intros gv r.
  assert (∀ b b' : bool, (b = false ↔ b' = false) → b = b') as Hbool.
  { intros [] []; intuition congruence. }
  apply Hbool. rewrite !skipped_false_iff.
  destruct o as [sb g n v c cs gc nc d s f p]. unfold satisfies. simpl in *.
  assert (∀ (l l' have : list string),
            (∀ x, x ∈ l ↔ x ∈ l') →
            (l ≠ [] → l ⊆ have) ↔ (l' ≠ [] → l' ⊆ have)) as Hset.
  { intros l l' have Hl. split; intros Hsub Hne x Hx.
    - apply Hsub; [|by apply Hl]. intros ->. apply Hl in Hx.
      by apply elem_of_nil in Hx.
    - apply Hsub; [|by apply Hl]. intros ->. apply Hl in Hx.
      by apply elem_of_nil in Hx. }
  rewrite (Hset verbs v _ Hverbs), (Hset categories cs _ Hcats). done.
Qed.

End FilterLoop.

(** ** The run, case by case *)

Section RunCases.
Variable ParseGroupVersion : string → schema.GroupVersion * option error.
Implicit Types (o : Options).

Import APIResourceOptions.

Lemma printContextHeaders_row out output :
  printContextHeaders out output
  = ([EvFprintf (header_row output)], Return (Write out (header_row output))).
Proof. done. Qed.

(** Every way [RunAPIResources] can go, in the order the source decides
    them. *)
Lemma RunAPIResources_cases o :
  RunAPIResources ParseGroupVersion o
  = match discoveryClient o with
    | None =>
        ([EvFlush], Panic "invalid memory address or nil pointer dereference")
    | Some client =>
        let pre :=
          (if Cached o then [] else [EvInvalidate])
          ++ [EvServerPreferredResources] in
        let finish (written : list event) : M (option error) :=
          match (collect ParseGroupVersion o
                         (ServerPreferredResources client).1).2 with
          | [] =>
              (pre ++ written ++ [EvFlush],
               Panic "index out of range [0] with length 0")
          | first :: rest =>
              match PrintObj o with
              | None =>
                  (pre ++ written ++ [EvFlush],
                   Panic "invalid memory address or nil pointer dereference")
              | Some printObj =>
                  let flatList :=
                    metav1.mkAPIResourceList
                      (metav1.mkTypeMeta
                         (metav1.TypeMeta_Kind (metav1.ListTypeMeta first))
                         (metav1.TypeMeta_APIVersion (metav1.ListTypeMeta first)))
                      ""
                      (fold_left
                         (λ acc resource, acc ++ metav1.APIResources resource)
                         (first :: rest) []) in
                  (pre ++ written ++ [EvPrintObj flatList; EvFlush],
                   Return (printObj flatList))
              end
          end in
        match PrintFlags.NoHeaders (PrintFlags o) with
        | None =>
            (pre ++ [EvFlush],
             Panic "invalid memory address or nil pointer dereference")
        | Some noHeaders =>
            match PrintFlags.OutputFormat (PrintFlags o) with
            | None =>
                if noHeaders then finish []
                else (pre ++ [EvFlush],
                      Panic "invalid memory address or nil pointer dereference")
            | Some output =>
                if negb noHeaders
                   && (String.eqb output "" || String.eqb output "wide")
                then
                  match Write (Out (Streams o)) (header_row output) with
                  | Some e =>
                      (pre ++ [EvFprintf (header_row output); EvFlush],
                       Return (Some e))
                  | None => finish [EvFprintf (header_row output)]
                  end
                else finish []
            end
        end
    end.
Proof.
  rewrite RunAPIResources_without_sort.
  destruct (discoveryClient o) as [client|]; [|done].
  unfold headers_due.
  destruct (PrintFlags.NoHeaders (PrintFlags o)) as [noHeaders|];
    [|by destruct (Cached o)].
  destruct (PrintFlags.OutputFormat (PrintFlags o)) as [output|];
    destruct noHeaders, (Cached o), (PrintObj o) as [printObj|];
    unfold defer, deref, flatten, printContextHeaders, header_row,
      mbind, M_bind, run_bind, mret, M_ret, emit, panic;
    simpl;
    destruct (collect ParseGroupVersion o (ServerPreferredResources client).1).2
      as [|first rest];
    simpl; try done.
  all: destruct (String.eqb output ""), (String.eqb output "wide"); simpl;
    try done.
  all: by destruct (Write (Out (Streams o)) _).
Qed.

Lemma ingested_buckets o lists :
  (collect ParseGroupVersion o lists).2 = []
  ↔ Forall (λ lst, ¬ ingested ParseGroupVersion lst) lists.
Proof.
  rewrite collect_spec. simpl.
  induction lists as [|lst lists IH]; [by split; [constructor|]|].
  rewrite filter_cons, Forall_cons.
  destruct (decide (ingested ParseGroupVersion lst)); [|by rewrite IH; tauto].
  split; [done|]. by intros [? _].
Qed.

Lemma rebuilt_buckets o lists :
  Forall (λ a, metav1.ListTypeMeta a = metav1.mkTypeMeta "APIResourceList" "v1")
         (collect ParseGroupVersion o lists).2.
Proof.
  rewrite collect_spec. simpl. apply Forall_fmap, Forall_forall. done.
Qed.

(** X6. With a discovery client in place, the run asks the catalog source
    exactly once, as its first call unless the cache is invalidated first,
    and the cache is invalidated exactly when [Cached] is false. *)
Theorem catalog_is_fetched_once_after_invalidation o client :
  discoveryClient o = Some client →
  ∃ rest,
    trace (RunAPIResources ParseGroupVersion o)
    = (if Cached o then [] else [EvInvalidate])
      ++ (EvServerPreferredResources :: rest)
    ∧ (EvInvalidate ∉ rest)
    ∧ (EvServerPreferredResources ∉ rest).
Proof.
  intros Hclient. rewrite RunAPIResources_cases, Hclient. unfold trace.
  destruct ((collect ParseGroupVersion o (ServerPreferredResources client).1).2),
    (PrintFlags.NoHeaders (PrintFlags o)) as [[]|],
    (PrintFlags.OutputFormat (PrintFlags o)), (PrintObj o); simpl;
    repeat case_match; simpl; rewrite <-?app_assoc; simpl;
    eexists; (split; [reflexivity|]);
    rewrite ?not_elem_of_cons; repeat split; by try apply not_elem_of_nil.
Qed.

(** X7. Whatever happens in between, also when the run faults, the tab
    writer is flushed exactly once, as the last thing the run does, and
    the run itself never ends the process. *)
Theorem output_is_flushed_last o :
  (∃ calls,
     trace (RunAPIResources ParseGroupVersion o) = calls ++ [EvFlush]
     ∧ EvFlush ∉ calls)
  ∧ ∀ err, result (RunAPIResources ParseGroupVersion o) ≠ Exit err.
Proof.
  rewrite RunAPIResources_cases. unfold trace, result.
  destruct (discoveryClient o) as [client|].
  2:{ split; [|done]. exists []. split; [done|]. apply not_elem_of_nil. }
  destruct ((collect ParseGroupVersion o (ServerPreferredResources client).1).2),
    (PrintFlags.NoHeaders (PrintFlags o)) as [[]|],
    (PrintFlags.OutputFormat (PrintFlags o)), (PrintObj o), (Cached o); simpl;
    repeat case_match; simpl; (split; [|done]).
  all: match goal with
       | |- ∃ calls, ?tr = _ ∧ _ =>
           exists (removelast tr); split; [reflexivity|]
       end.
  all: simpl; rewrite ?not_elem_of_cons; repeat split;
    by try apply not_elem_of_nil.
Qed.

(** X8. Whether the header row is written depends on the print flags
    alone, not on the catalog or the filters: it is written exactly when
    headers are not suppressed and the format is the default or [wide],
    and what is written is the row of column names for that format.  It is
    therefore written also when no entry survives. *)
Theorem header_row_depends_on_flags_only o client noHeaders output text :
  discoveryClient o = Some client →
  PrintFlags.NoHeaders (PrintFlags o) = Some noHeaders →
  PrintFlags.OutputFormat (PrintFlags o) = Some output →
  EvFprintf text ∈ trace (RunAPIResources ParseGroupVersion o)
  ↔ noHeaders = false ∧ (output = "" ∨ output = "wide")
    ∧ text = header_row output.
Proof.
  intros Hclient Hnh Hout.
  rewrite RunAPIResources_cases, Hclient, Hnh, Hout. unfold trace.
  assert (String.eqb output "" || String.eqb output "wide" = true
          ↔ output = "" ∨ output = "wide") as Hfmt.
  { rewrite orb_true_iff, !String.eqb_eq. done. }
  split.
  - intros Hin.
    destruct noHeaders,
      (String.eqb output "" || String.eqb output "wide") eqn:Hdue,
      (Write (Out (Streams o)) (header_row output)),
      ((collect ParseGroupVersion o (ServerPreferredResources client).1).2),
      (PrintObj o), (Cached o); simpl in Hin;
      repeat (apply elem_of_cons in Hin as [Hin|Hin];
              [try discriminate Hin|]);
      try (by apply elem_of_nil in Hin);
      injection Hin as ->; by rewrite <-Hfmt.
  - intros (-> & Hdue%Hfmt & ->). rewrite Hdue. simpl.
    destruct (Write (Out (Streams o)) (header_row output)),
      ((collect ParseGroupVersion o (ServerPreferredResources client).1).2),
      (PrintObj o), (Cached o); simpl;
      rewrite ?elem_of_cons; auto.
Qed.


(** X10. With the discovery client and the print flags in place and a
    sink that takes every write, the run faults on [allResources[0]]
    exactly when no bucket of the catalog has both a resource and a
    group-version that parses; buckets whose resources are all filtered
    out do not make it fault. *)
Theorem faults_exactly_when_no_bucket_is_ingested o client noHeaders output :
  discoveryClient o = Some client →
  PrintFlags.NoHeaders (PrintFlags o) = Some noHeaders →
  PrintFlags.OutputFormat (PrintFlags o) = Some output →
  (∀ text, Write (Out (Streams o)) text = None) →
  result (RunAPIResources ParseGroupVersion o)
  = Panic "index out of range [0] with length 0"
  ↔ Forall (λ lst, ¬ ingested ParseGroupVersion lst)
           (ServerPreferredResources client).1.
Proof.
  intros Hclient Hnh Hout Hwrite.
  rewrite <-(ingested_buckets o).
  rewrite RunAPIResources_cases, Hclient, Hnh, Hout, Hwrite. unfold result.
  destruct ((collect ParseGroupVersion o (ServerPreferredResources client).1).2),
    (PrintObj o); simpl; repeat case_match; simpl; split; done.
Qed.

(** X11. With the discovery client, the print flags and the printer in
    place, a sink that takes every write and at least one ingested bucket,
    the run returns: it makes its calls in the order invalidate (unless
    cached), fetch, header row (when due), print, flush; it prints one
    object, of kind [APIResourceList] and version [v1], without
    group-version, whose records are the records of the collected entries
    in the order of the catalog; and it returns what the printer returned
    for that object. *)
Theorem run_prints_the_flat_list_once o client noHeaders output printObj :
  discoveryClient o = Some client →
  PrintFlags.NoHeaders (PrintFlags o) = Some noHeaders →
  PrintFlags.OutputFormat (PrintFlags o) = Some output →
  PrintObj o = Some printObj →
  (∀ text, Write (Out (Streams o)) text = None) →
  Exists (ingested ParseGroupVersion) (ServerPreferredResources client).1 →
  ∃ flatList,
    RunAPIResources ParseGroupVersion o
    = ((if Cached o then [] else [EvInvalidate])
       ++ [EvServerPreferredResources]
       ++ (if negb noHeaders
              && (String.eqb output "" || String.eqb output "wide")
           then [EvFprintf (header_row output)] else [])
       ++ [EvPrintObj flatList; EvFlush],
       Return (printObj flatList))
    ∧ metav1.ListTypeMeta flatList = metav1.mkTypeMeta "APIResourceList" "v1"
    ∧ metav1.GroupVersion flatList = ""
    ∧ metav1.APIResources flatList
      = APIResource
          <$> (collect ParseGroupVersion o (ServerPreferredResources client).1).1.
Proof.
  intros Hclient Hnh Hout Hprint Hwrite Hsome.
  pose proof (rebuilt_buckets o (ServerPreferredResources client).1) as Hmeta.
  destruct (collect_collected ParseGroupVersion o
              (ServerPreferredResources client).1) as [_ Hrecords].
  rewrite RunAPIResources_cases, Hclient, Hnh, Hout, Hprint, Hwrite.
  destruct ((collect ParseGroupVersion o (ServerPreferredResources client).1).2)
    as [|first rest] eqn:Hall.
  { apply ingested_buckets in Hall. apply Exists_exists in Hsome as (lst & ? & ?).
    rewrite Forall_forall in Hall. by destruct (Hall lst). }
  apply Forall_cons in Hmeta as [Hfirst _].
  rewrite flatten_records, Hrecords, Hfirst. simpl.
  eexists. split.
  - destruct (negb noHeaders && _); simpl; rewrite <-?app_assoc; reflexivity.
  - done.
Qed.

End RunCases.

(** ** The methods of [sortableResource] and the sort *)

Lemma insert_head_Permutation {A : Type} (l : list A) (j : nat) (a y : A) :
  l !! j = Some y → y :: <[j := a]> l ≡ₚ a :: l.
Proof.
  revert j. induction l as [|b l IH]; intros [|j] Hj; simplify_eq/=.
  - apply perm_swap.
  - rewrite perm_swap, (IH j Hj). apply perm_swap.
Qed.

Lemma insert_insert_Permutation {A : Type} (l : list A) (i j : nat) (x y : A) :
  l !! i = Some x → l !! j = Some y → <[i := y]> (<[j := x]> l) ≡ₚ l.
Proof.
  revert i j. induction l as [|a l IH]; intros [|i] [|j] Hi Hj; simplify_eq/=.
  - done.
  - by apply insert_head_Permutation.
  - symmetry. rewrite <-(insert_head_Permutation l i y x Hi). done.
  - by rewrite IH.
Qed.

Section SortableResource.
Implicit Types (s : sortableResource) (x y z : groupResource) (i j k : nat).

Lemma in_range_lookup s i : i < Len s → ∃ x, resources s !! i = Some x.
Proof. intros Hi. by apply lookup_lt_is_Some_2. Qed.

Lemma before_trans sortBy x y z :
  before sortBy x y = true → before sortBy y z = true →
  before sortBy x z = true.
Proof. rewrite !before_key_compare. apply key_compare_lt_trans. Qed.

(** X12. On indices in range [Less] is the strict order that sorting
    needs: no entry is less than itself, two entries are never less than
    each other, the order is transitive, and so is being not less. *)
Theorem Less_is_a_strict_weak_order s i j k :
  i < Len s → j < Len s → k < Len s →
  Less s i i = Some false
  ∧ (Less s i j = Some true → Less s j i = Some false)
  ∧ (Less s i j = Some true → Less s j k = Some true → Less s i k = Some true)
  ∧ (Less s i j = Some false → Less s j k = Some false →
     Less s i k = Some false).
Proof.
  intros [x Hx]%in_range_lookup [y Hy]%in_range_lookup [z Hz]%in_range_lookup.
  rewrite (Less_Some s i i x x), (Less_Some s i j x y), (Less_Some s j i y x),
    (Less_Some s j k y z), (Less_Some s i k x z) by done.
  repeat split.
  - by rewrite before_irrefl.
  - intros [= Hxy]. by rewrite (before_asym _ _ _ Hxy).
  - intros [= Hxy] [= Hyz]. by rewrite (before_trans _ _ _ _ Hxy Hyz).
  - intros [= Hxy] [= Hyz]. by rewrite (before_negtrans _ _ _ _ Hxy Hyz).
Qed.

(** X13. [Less] and [Swap] fault exactly when one of the two indices is
    out of range. *)
Theorem Less_and_Swap_fault_out_of_range s i j :
  (Less s i j = None ↔ Len s ≤ i ∨ Len s ≤ j)
  ∧ (Swap s i j = None ↔ Len s ≤ i ∨ Len s ≤ j).
Proof.
  unfold Len. rewrite <-!lookup_ge_None. split.
  - destruct (resources s !! i) as [x|] eqn:Hi,
      (resources s !! j) as [y|] eqn:Hj.
    + rewrite (Less_Some s i j x y Hi Hj). split; [done|]. by intros [|].
    + unfold Less, compareValues. rewrite Hi, Hj. simpl. tauto.
    + unfold Less, compareValues. rewrite Hi. simpl. tauto.
    + unfold Less, compareValues. rewrite Hi. simpl. tauto.
  - unfold Swap.
    destruct (resources s !! i), (resources s !! j); simpl;
      split; try done; try tauto; by intros [|].
Qed.

(** X14. A [Swap] that does not fault exchanges the entries at the two
    indices and leaves every other entry, the length and the sort key as
    they were; the slice is rearranged, and swapping again restores it. *)
Theorem Swap_exchanges_two_entries s i j s' :
  Swap s i j = Some s' →
  sortBy s' = sortBy s
  ∧ Len s' = Len s
  ∧ resources s' !! i = resources s !! j
  ∧ resources s' !! j = resources s !! i
  ∧ (∀ k, k ≠ i → k ≠ j → resources s' !! k = resources s !! k)
  ∧ resources s' ≡ₚ resources s
  ∧ Swap s' i j = Some s.
Proof.
  unfold Swap.
  destruct (resources s !! i) as [x|] eqn:Hi; [|done].
  destruct (resources s !! j) as [y|] eqn:Hj; [|done].
  simpl. intros [= <-]. simpl. unfold Len. simpl.
  pose proof (lookup_lt_Some _ _ _ Hi) as Hilen.
  pose proof (lookup_lt_Some _ _ _ Hj) as Hjlen.
  assert (<[i:=y]> (<[j:=x]> (resources s)) !! i = Some y) as Hi'.
  { apply list_lookup_insert_eq. by rewrite length_insert. }
  assert (<[i:=y]> (<[j:=x]> (resources s)) !! j = Some x) as Hj'.
  { destruct (decide (i = j)) as [->|Hne].
    - rewrite Hi in Hj. injection Hj as ->.
      apply list_lookup_insert_eq. by rewrite length_insert.
    - rewrite list_lookup_insert_ne by done. by apply list_lookup_insert_eq. }
  repeat split.
  - by rewrite !length_insert.
  - done.
  - done.
  - intros k Hki Hkj. by rewrite !list_lookup_insert_ne.
  - by apply insert_insert_Permutation.
  - rewrite Hi', Hj'. simpl. destruct s as [l sb]. simpl in *. f_equal. f_equal.
    apply list_eq. intros k.
    destruct (decide (k = i)) as [->|Hki].
    { rewrite list_lookup_insert_eq by (by rewrite !length_insert). done. }
    rewrite list_lookup_insert_ne by done.
    destruct (decide (k = j)) as [->|Hkj].
    { rewrite list_lookup_insert_eq by (by rewrite !length_insert). done. }
    by rewrite !list_lookup_insert_ne.
Qed.

End SortableResource.

Section SortResult.
Variable sortBy : string.
Implicit Types (l : list groupResource) (x y : groupResource).

Lemma ordered_not_before x y :
  ordered_by (primary sortBy) x y ↔ before sortBy y x = false.
Proof.
  split; [|apply not_before_ordered].
  rewrite before_false. unfold ordered_by, non_decreasing, key_compare, entry_name.
  rewrite (String.compare_antisym (primary sortBy x)),
    (String.compare_antisym (metav1.Name (APIResource x))).
  intros [Hp Hn].
  destruct (String.compare (primary sortBy y) (primary sortBy x)) eqn:Hc;
    simpl in *; [|done|done].
  apply string_compare_eq in Hc. symmetry in Hc. specialize (Hn Hc).
  by destruct (String.compare (metav1.Name (APIResource y)) _).
Qed.

Lemma StronglySorted_ordered l :
  StronglySorted (ordered_by (primary sortBy)) l
  ↔ StronglySorted (λ x y, before sortBy y x = false) l.
Proof.
  split; induction 1 as [|x l Hl IH Hx]; constructor; try done;
    (eapply Forall_impl; [exact Hx|]); intros y; apply ordered_not_before.
Qed.

Lemma sorts_to_insertion_sorted l l' :
  sorts_to sortBy l l' ↔ l' = insertion_sorted (before sortBy) l.
Proof.
  split.
  - intros Hl'. eapply sorts_to_unique; [exact Hl'|].
    apply Stable_insertion_sorted.
  - intros ->. apply Stable_insertion_sorted.
Qed.

Lemma sorts_to_characterised l l' :
  sorts_to sortBy l l'
  ↔ StronglySorted (ordered_by (primary sortBy)) l'
    ∧ ∀ x, filter (same_key sortBy x) l' = filter (same_key sortBy x) l.
Proof.
  split.
  - intros Hl'. split; [by eapply sorts_to_ordered|].
    intros x. by apply sorts_to_filter.
  - intros [Hsorted Hclasses]. apply sorts_to_insertion_sorted.
    apply (stable_sort_unique sortBy l).
    + apply Stable_insertion_sorted.
    + by apply StronglySorted_ordered.
    + done.
Qed.

End SortResult.

Lemma move_left_ext {A : Type} (less less' : A → A → bool) (x : A) (p : list A) :
  (∀ a b, less a b = less' a b) → move_left less x p = move_left less' x p.
Proof.
  intros Hext. induction p as [|y p IH]; simpl; [done|].
  by rewrite Hext, IH.
Qed.

Lemma insertion_sorted_ext {A : Type} (less less' : A → A → bool) (l : list A) :
  (∀ a b, less a b = less' a b) →
  insertion_sorted less l = insertion_sorted less' l.
Proof.
  intros Hext. unfold insertion_sorted. f_equal.
  generalize (@nil A) as prefix.
  induction l as [|x l IH]; intros prefix; simpl; [done|].
  by rewrite (move_left_ext less less' x prefix Hext), IH.
Qed.

(** X15. The Sorter does not reject a sort key it does not know: every key
    other than [name] and [kind] orders the slice as the empty key does,
    by API group with the name as tie-break. *)
Theorem unknown_sort_key_sorts_by_group (sortBy : string)
        (l l' : list groupResource) :
  sortBy ≠ "name" → sortBy ≠ "kind" →
  sorts_to sortBy l l' ↔ sorts_to "" l l'.
Proof.
  intros Hname Hkind. rewrite !sorts_to_insertion_sorted.
  rewrite (insertion_sorted_ext (before sortBy) (before "")); [done|].
  intros x y. unfold before, key_compare, primary.
  by rewrite (proj2 (String.eqb_neq _ _) Hname),
    (proj2 (String.eqb_neq _ _) Hkind).
Qed.

(** X16. [sort.Stable] is characterised by its two properties: a slice is
    its result exactly when it is in order (primary field, then name) and
    shows the entries of every class of identical keys in the order they
    had in the input.  No other rearrangement qualifies. *)
Theorem stable_sort_is_characterised (sortBy : string)
        (l l' : list groupResource) :
  sorts_to sortBy l l'
  ↔ StronglySorted (ordered_by (primary sortBy)) l'
    ∧ ∀ x, filter (same_key sortBy x) l' = filter (same_key sortBy x) l.
Proof. apply sorts_to_characterised. Qed.

(** X17. Sorting leaves a slice unchanged exactly when the slice is
    already in order, and sorting twice is sorting once. *)
Theorem sorting_is_idempotent (sortBy : string) (l : list groupResource) :
  (sorts_to sortBy l l ↔ StronglySorted (ordered_by (primary sortBy)) l)
  ∧ ∀ l', sorts_to sortBy l l' → sorts_to sortBy l' l'.
Proof.
  assert (∀ k, sorts_to sortBy k k
               ↔ StronglySorted (ordered_by (primary sortBy)) k) as Hfix.
  { intros k. rewrite sorts_to_characterised. split; [by intros [? _]|done]. }
  split; [apply Hfix|]. intros l' Hl'. apply Hfix.
  by eapply sorts_to_ordered.
Qed.

(** ** Format negotiation, [Complete] and the command *)

Section Command.
Variable ParseGroupVersion : string → schema.GroupVersion * option error.
Variable WrapToPrinter :
  option ResourcePrinter → option ResourcePrinter * option error.
Implicit Types (o : Options) (f : PrintFlags.t).

Import APIResourceOptions.

Lemma ToPrinter_answer f :
  (ToPrinter f).2
  = if negb (IsNoCompatiblePrinterError (json_answer f).2) then json_answer f
    else if negb (IsNoCompatiblePrinterError (human_answer f).2)
         then human_answer f
    else if negb (IsNoCompatiblePrinterError (name_answer f).2)
         then name_answer f
    else (None,
          Some (NoCompatiblePrinterError
                  (default "" (PrintFlags.OutputFormat f)) (AllowedFormats f))).
Proof.
  unfold ToPrinter, json_answer, human_answer, name_answer. simpl.
  by repeat case_match.
Qed.

Lemma ToPrinter_flags f :
  (ToPrinter f).1
  = PrintFlags.mk (PrintFlags.JSONYamlPrintFlags f) (PrintFlags.NamePrintFlags f)
      (get.mkHumanPrintFlags
         (default false (PrintFlags.NoHeaders f))
         (get.ToPrinter (PrintFlags.HumanReadableFlags f))
         (get.AllowedFormats (PrintFlags.HumanReadableFlags f)))
      (PrintFlags.NoHeaders f) (PrintFlags.OutputFormat f).
Proof. unfold ToPrinter. simpl. by repeat case_match. Qed.

(** X18. Format negotiation asks the structured family first, then the
    human-readable one, then the name family, and takes the first answer
    that is not a refusal, be it a printer or another error.  It ends in
    the error that no printer is compatible, listing the allowed formats,
    exactly when all three refuse; and the only trace it leaves in the
    flags is [NoHeaders] stored in the human-readable family. *)
Theorem format_negotiation_order f :
  (IsNoCompatiblePrinterError (ToPrinter f).2.2 = true
   ↔ IsNoCompatiblePrinterError (json_answer f).2 = true
     ∧ IsNoCompatiblePrinterError (human_answer f).2 = true
     ∧ IsNoCompatiblePrinterError (name_answer f).2 = true)
  ∧ (IsNoCompatiblePrinterError (json_answer f).2 = false →
     (ToPrinter f).2 = json_answer f)
  ∧ (IsNoCompatiblePrinterError (json_answer f).2 = true →
     IsNoCompatiblePrinterError (human_answer f).2 = false →
     (ToPrinter f).2 = human_answer f)
  ∧ (IsNoCompatiblePrinterError (json_answer f).2 = true →
     IsNoCompatiblePrinterError (human_answer f).2 = true →
     IsNoCompatiblePrinterError (name_answer f).2 = false →
     (ToPrinter f).2 = name_answer f)
  ∧ (IsNoCompatiblePrinterError (json_answer f).2 = true →
     IsNoCompatiblePrinterError (human_answer f).2 = true →
     IsNoCompatiblePrinterError (name_answer f).2 = true →
     (ToPrinter f).2
     = (None,
        Some (NoCompatiblePrinterError
                (default "" (PrintFlags.OutputFormat f)) (AllowedFormats f))))
  ∧ PrintFlags.JSONYamlPrintFlags (ToPrinter f).1 = PrintFlags.JSONYamlPrintFlags f
  ∧ PrintFlags.NamePrintFlags (ToPrinter f).1 = PrintFlags.NamePrintFlags f
  ∧ PrintFlags.NoHeaders (ToPrinter f).1 = PrintFlags.NoHeaders f
  ∧ PrintFlags.OutputFormat (ToPrinter f).1 = PrintFlags.OutputFormat f
  ∧ get.NoHeaders (PrintFlags.HumanReadableFlags (ToPrinter f).1)
    = default false (PrintFlags.NoHeaders f).
Proof.
  rewrite ToPrinter_answer, ToPrinter_flags. simpl.
  destruct (IsNoCompatiblePrinterError (json_answer f).2) eqn:Hj,
    (IsNoCompatiblePrinterError (human_answer f).2) eqn:Hh,
    (IsNoCompatiblePrinterError (name_answer f).2) eqn:Hn; simpl;
    rewrite ?Hj, ?Hh, ?Hn; repeat split; try done; by intros (? & ? & ?).
Qed.

Ltac run_steps :=
  unfold Run, Complete, CheckErr, os_Exit, mbind, M_bind, run_bind, mret,
    M_ret, emit; simpl.

(** X19. Stray positional arguments are refused before anything else
    happens: the command exits on the usage error without constructing the
    discovery client. *)
Theorem stray_arguments_are_refused_first o restClientGetter cmd args :
  args ≠ [] →
  Run ParseGroupVersion WrapToPrinter o restClientGetter cmd args
  = ([], Exit (UsageErrorf "unexpected arguments: %v" args)).
Proof. intros Hargs. by destruct args. Qed.

(** X20. When the discovery client cannot be constructed, the command
    exits on that error; the catalog is not fetched and nothing is
    written. *)
Theorem discovery_client_error_ends_the_command o restClientGetter cmd
        client e :
  ToDiscoveryClient restClientGetter = (client, Some e) →
  Run ParseGroupVersion WrapToPrinter o restClientGetter cmd []
  = ([EvToDiscoveryClient], Exit e).
Proof. intros Hget. run_steps. by rewrite Hget. Qed.

(** X21. An output format that all three families refuse is a
    configuration error: the command exits on the error that names the
    format and lists the allowed ones, after constructing the discovery
    client and before any fetch. *)
Theorem unknown_output_format_ends_the_command o restClientGetter cmd
        client output :
  ToDiscoveryClient restClientGetter = (client, None) →
  PrintFlags.OutputFormat (PrintFlags o) = Some output →
  IsNoCompatiblePrinterError (json_answer (PrintFlags o)).2 = true →
  IsNoCompatiblePrinterError (human_answer (PrintFlags o)).2 = true →
  IsNoCompatiblePrinterError (name_answer (PrintFlags o)).2 = true →
  Run ParseGroupVersion WrapToPrinter o restClientGetter cmd []
  = ([EvToDiscoveryClient],
     Exit (NoCompatiblePrinterError output (AllowedFormats (PrintFlags o)))).
Proof.
  intros Hget Hout Hj Hh Hn.
  pose proof (ToPrinter_answer (PrintFlags o)) as Hanswer.
  rewrite Hj, Hh, Hn, Hout in Hanswer. simpl in Hanswer.
  run_steps. rewrite Hget, Hout.
  destruct (ToPrinter (PrintFlags o)) as [flags [printer err]].
  simpl in Hanswer. by injection Hanswer as -> ->.
Qed.

(** X22. [Complete] never touches the filter configuration, the sort key,
    the cache flag or the streams.  When it reports no error there were no
    positional arguments, the options hold the discovery client of the
    getter and the two was-changed flags of the command line, and, with an
    output format present, the printer is the negotiated one after the
    type-setting wrapper and the flags are those negotiation left; with a
    nil format the printer stays as it was. *)
Theorem Complete_fills_the_options o restClientGetter cmd args o' err :
  result (Complete WrapToPrinter o restClientGetter cmd args)
  = Return (o', err) →
  (SortBy o' = SortBy o ∧ APIGroup o' = APIGroup o
   ∧ Namespaced o' = Namespaced o ∧ Verbs o' = Verbs o
   ∧ Cached o' = Cached o ∧ Categories o' = Categories o
   ∧ Streams o' = Streams o)
  ∧ (err = None →
     args = []
     ∧ (ToDiscoveryClient restClientGetter).2 = None
     ∧ discoveryClient o' = (ToDiscoveryClient restClientGetter).1
     ∧ groupChanged o' = Changed cmd "api-group"
     ∧ nsChanged o' = Changed cmd "namespaced"
     ∧ match PrintFlags.OutputFormat (PrintFlags o) with
       | None => PrintObj o' = PrintObj o ∧ PrintFlags o' = PrintFlags o
       | Some _ =>
           (ToPrinter (PrintFlags o)).2.2 = None
           ∧ WrapToPrinter (ToPrinter (PrintFlags o)).2.1 = (PrintObj o', None)
           ∧ PrintFlags o' = (ToPrinter (PrintFlags o)).1
       end).
Proof.
  unfold Complete. destruct args as [|arg args]; simpl.
  2:{ intros [= <- <-]. by repeat split. }
  destruct (ToDiscoveryClient restClientGetter) as [client [e|]]; simpl.
  { intros [= <- <-]. by repeat split. }
  destruct (PrintFlags.OutputFormat (PrintFlags o)) as [output|]; simpl.
  2:{ intros [= <- <-]. by repeat split. }
  destruct (ToPrinter (PrintFlags o)) as [flags [printer [e|]]]; simpl.
  { intros [= <- <-]. by repeat split. }
  destruct (WrapToPrinter printer) as [wrapped [e|]] eqn:Hwrap; simpl.
  { intros [= <- <-]. by repeat split. }
  intros [= <- <-]. by repeat split.
Qed.

(** X23. When [Complete] reports no error and the sort key is one of the
    three accepted values, the command runs the pipeline on the completed
    options: its calls are those of [Complete] followed by those of
    [RunAPIResources], it ends normally when the pipeline returns nil, and
    it exits on the error the pipeline returns otherwise. *)
Theorem command_runs_the_pipeline o restClientGetter cmd args o' :
  result (Complete WrapToPrinter o restClientGetter cmd args)
  = Return (o', None) →
  SortBy o ∈ [""; "name"; "kind"] →
  Run ParseGroupVersion WrapToPrinter o restClientGetter cmd args
  = (trace (Complete WrapToPrinter o restClientGetter cmd args)
     ++ trace (RunAPIResources ParseGroupVersion o'),
     match result (RunAPIResources ParseGroupVersion o') with
     | Return None => Return ()
     | Return (Some e) => Exit e
     | Panic msg => Panic msg
     | Exit e => Exit e
     end).
Proof.
  intros Hres Hsort.
  destruct (Complete_returns WrapToPrinter o restClientGetter cmd args)
    as (o'' & err & Hres' & Hkeep & _).
  rewrite Hres in Hres'. injection Hres' as <- <-.
  assert (Validate o' = None) as Hvalid.
  { apply Validate_accepts. by rewrite Hkeep. }
  unfold Run, trace, result in *.
  destruct (Complete WrapToPrinter o restClientGetter cmd args) as [calls r].
  simpl in Hres. subst r.
  unfold mbind, M_bind, run_bind, CheckErr. simpl. rewrite Hvalid. simpl.
  destruct (RunAPIResources ParseGroupVersion o') as [calls' [[e|]|msg|e]];
    simpl; by rewrite ?app_nil_r.
Qed.

End Command.

(** ** The further properties on concrete catalogs *)

(** X4, on scenario A: asking for [list] on top of [get], within the
    category [all]. *)
Lemma verbs_get_list_within_get :
  (collect schema.ParseGroupVersion
     (with_Categories (with_Verbs (with_Verbs fresh_options ["get"])
                                  ["get"; "list"]) ["all"])
     scenarioA).1
  `sublist_of`
  (collect schema.ParseGroupVersion (with_Verbs fresh_options ["get"])
           scenarioA).1.
Proof.
  apply (more_requirements_fewer_entries schema.ParseGroupVersion
           (with_Verbs fresh_options ["get"]) scenarioA ["get"; "list"]
           ["all"]).
  all: simpl; intros x; rewrite ?elem_of_cons, ?elem_of_nil; tauto.
Defined.

(** X5, on scenario A: [--verbs=list,get,list] against [--verbs=get,list]. *)
Lemma verbs_in_any_order :
  collect schema.ParseGroupVersion
    (with_Categories (with_Verbs (with_Verbs fresh_options ["get"; "list"])
                                 ["list"; "get"; "list"]) [])
    scenarioA
  = collect schema.ParseGroupVersion
            (with_Verbs fresh_options ["get"; "list"]) scenarioA.
Proof.
  apply (requested_lists_act_as_sets schema.ParseGroupVersion
           (with_Verbs fresh_options ["get"; "list"]) scenarioA
           ["list"; "get"; "list"] []).
  all: simpl; intros x; rewrite ?elem_of_cons, ?elem_of_nil; tauto.
Defined.

(** X6, on scenario A with [-o json] and no cache. *)
Lemma scenarioA_fetched_once :
  ∃ rest,
    trace (RunAPIResources schema.ParseGroupVersion
             (json_options scenarioA None))
    = (if APIResourceOptions.Cached (json_options scenarioA None)
       then [] else [EvInvalidate])
      ++ (EvServerPreferredResources :: rest)
    ∧ (EvInvalidate ∉ rest)
    ∧ (EvServerPreferredResources ∉ rest).
Proof.
  apply (catalog_is_fetched_once_after_invalidation schema.ParseGroupVersion
           (json_options scenarioA None) (mkDiscovery (scenarioA, None))).
  reflexivity.
Defined.

(** X8, on scenario A with [-o wide]. *)
Lemma wide_header_row_is_written :
  EvFprintf (header_row "wide")
  ∈ trace (RunAPIResources schema.ParseGroupVersion
             (completed_options stdout false "wide" scenarioA))
  ↔ false = false ∧ ("wide" = "" ∨ "wide" = "wide")
    ∧ header_row "wide" = header_row "wide".
Proof.
  apply (header_row_depends_on_flags_only schema.ParseGroupVersion
           (completed_options stdout false "wide" scenarioA)
           (mkDiscovery (scenarioA, None)) false "wide" (header_row "wide"));
    reflexivity.
Defined.


(** X10, on a catalog with one unparsable and one empty bucket. *)
Lemma nothing_ingested_run :
  result (RunAPIResources schema.ParseGroupVersion
            (completed_options stdout false ""
               [bucket "a/b/c" [namespaces]; bucket "v1" []]))
  = Panic "index out of range [0] with length 0"
  ↔ Forall (λ lst, ¬ ingested schema.ParseGroupVersion lst)
           [bucket "a/b/c" [namespaces]; bucket "v1" []].
Proof.
  apply (faults_exactly_when_no_bucket_is_ingested schema.ParseGroupVersion
           (completed_options stdout false ""
              [bucket "a/b/c" [namespaces]; bucket "v1" []])
           (mkDiscovery ([bucket "a/b/c" [namespaces]; bucket "v1" []], None))
           false ""); reflexivity.
Defined.

(** X11, on scenario A with the default table and no filter. *)
Lemma scenarioA_table_run :
  ∃ flatList,
    RunAPIResources schema.ParseGroupVersion
      (completed_options stdout false "" scenarioA)
    = ([EvInvalidate; EvServerPreferredResources; EvFprintf (header_row "");
        EvPrintObj flatList; EvFlush],
       Return None)
    ∧ metav1.ListTypeMeta flatList = metav1.mkTypeMeta "APIResourceList" "v1"
    ∧ metav1.GroupVersion flatList = ""
    ∧ metav1.APIResources flatList = [deployments; namespaces].
Proof.
  apply (run_prints_the_flat_list_once schema.ParseGroupVersion
           (completed_options stdout false "" scenarioA)
           (mkDiscovery (scenarioA, None)) false "" (λ _, None));
    try reflexivity.
  apply Exists_cons_hd. split; [discriminate|reflexivity].
Defined.

(** X12, on the slice [namespaces], [deployments], [namespaces]. *)
Lemma Less_on_three_entries :
  Less (mkSortable [entry "" "v1" namespaces; entry "apps" "apps/v1" deployments;
                    entry "" "v1" namespaces] "") 0 0 = Some false
  ∧ (Less (mkSortable [entry "" "v1" namespaces;
                       entry "apps" "apps/v1" deployments;
                       entry "" "v1" namespaces] "") 0 1 = Some true →
     Less (mkSortable [entry "" "v1" namespaces;
                       entry "apps" "apps/v1" deployments;
                       entry "" "v1" namespaces] "") 1 0 = Some false)
  ∧ (Less (mkSortable [entry "" "v1" namespaces;
                       entry "apps" "apps/v1" deployments;
                       entry "" "v1" namespaces] "") 0 1 = Some true →
     Less (mkSortable [entry "" "v1" namespaces;
                       entry "apps" "apps/v1" deployments;
                       entry "" "v1" namespaces] "") 1 2 = Some true →
     Less (mkSortable [entry "" "v1" namespaces;
                       entry "apps" "apps/v1" deployments;
                       entry "" "v1" namespaces] "") 0 2 = Some true)
  ∧ (Less (mkSortable [entry "" "v1" namespaces;
                       entry "apps" "apps/v1" deployments;
                       entry "" "v1" namespaces] "") 0 1 = Some false →
     Less (mkSortable [entry "" "v1" namespaces;
                       entry "apps" "apps/v1" deployments;
                       entry "" "v1" namespaces] "") 1 2 = Some false →
     Less (mkSortable [entry "" "v1" namespaces;
                       entry "apps" "apps/v1" deployments;
                       entry "" "v1" namespaces] "") 0 2 = Some false).
Proof.
  apply (Less_is_a_strict_weak_order
           (mkSortable [entry "" "v1" namespaces;
                        entry "apps" "apps/v1" deployments;
                        entry "" "v1" namespaces] "") 0 1 2);
    unfold Len; simpl; lia.
Defined.

(** X14, on a slice of two entries. *)
Lemma Swap_on_two_entries :
  sortBy (mkSortable [entry "" "v1" namespaces;
                      entry "apps" "apps/v1" deployments] "name")
  = sortBy (mkSortable [entry "apps" "apps/v1" deployments;
                        entry "" "v1" namespaces] "name")
  ∧ Len (mkSortable [entry "" "v1" namespaces;
                     entry "apps" "apps/v1" deployments] "name")
    = Len (mkSortable [entry "apps" "apps/v1" deployments;
                       entry "" "v1" namespaces] "name")
  ∧ resources (mkSortable [entry "" "v1" namespaces;
                           entry "apps" "apps/v1" deployments] "name") !! 0
    = resources (mkSortable [entry "apps" "apps/v1" deployments;
                             entry "" "v1" namespaces] "name") !! 1
  ∧ resources (mkSortable [entry "" "v1" namespaces;
                           entry "apps" "apps/v1" deployments] "name") !! 1
    = resources (mkSortable [entry "apps" "apps/v1" deployments;
                             entry "" "v1" namespaces] "name") !! 0
  ∧ (∀ k, k ≠ 0 → k ≠ 1 →
       resources (mkSortable [entry "" "v1" namespaces;
                              entry "apps" "apps/v1" deployments] "name") !! k
       = resources (mkSortable [entry "apps" "apps/v1" deployments;
                                entry "" "v1" namespaces] "name") !! k)
  ∧ resources (mkSortable [entry "" "v1" namespaces;
                           entry "apps" "apps/v1" deployments] "name")
    ≡ₚ resources (mkSortable [entry "apps" "apps/v1" deployments;
                              entry "" "v1" namespaces] "name")
  ∧ Swap (mkSortable [entry "" "v1" namespaces;
                      entry "apps" "apps/v1" deployments] "name") 0 1
    = Some (mkSortable [entry "apps" "apps/v1" deployments;
                        entry "" "v1" namespaces] "name").
Proof.
  apply (Swap_exchanges_two_entries
           (mkSortable [entry "apps" "apps/v1" deployments;
                        entry "" "v1" namespaces] "name") 0 1
           (mkSortable [entry "" "v1" namespaces;
                        entry "apps" "apps/v1" deployments] "name")).
  reflexivity.
Defined.

(** X15, on the key [bogus] and the entries of scenario A. *)
Lemma bogus_key_sorts_by_group :
  sorts_to "bogus"
    [entry "apps" "apps/v1" deployments; entry "" "v1" namespaces]
    [entry "" "v1" namespaces; entry "apps" "apps/v1" deployments]
  ↔ sorts_to ""
      [entry "apps" "apps/v1" deployments; entry "" "v1" namespaces]
      [entry "" "v1" namespaces; entry "apps" "apps/v1" deployments].
Proof.
  apply (unknown_sort_key_sorts_by_group "bogus"
           [entry "apps" "apps/v1" deployments; entry "" "v1" namespaces]
           [entry "" "v1" namespaces; entry "apps" "apps/v1" deployments]);
    discriminate.
Defined.

(** X19, on one positional argument. *)
Lemma stray_argument_exits :
  Run schema.ParseGroupVersion plain_wrapper fresh_options
      (getter_for scenarioA None) no_flag_changed ["pods"]
  = ([], Exit (UsageErrorf "unexpected arguments: %v" ["pods"])).
Proof.
  apply (stray_arguments_are_refused_first schema.ParseGroupVersion
           plain_wrapper fresh_options (getter_for scenarioA None)
           no_flag_changed ["pods"]).
  discriminate.
Defined.

(** X20, on a getter that cannot reach the cluster. *)
Lemma unreachable_cluster_exits :
  Run schema.ParseGroupVersion plain_wrapper fresh_options
      (failing_getter (ExternalError "connection refused")) no_flag_changed []
  = ([EvToDiscoveryClient], Exit (ExternalError "connection refused")).
Proof.
  apply (discovery_client_error_ends_the_command schema.ParseGroupVersion
           plain_wrapper fresh_options
           (failing_getter (ExternalError "connection refused"))
           no_flag_changed None (ExternalError "connection refused")).
  reflexivity.
Defined.

(** X21, on [-o bogus]. *)
Lemma bogus_output_format_exits :
  Run schema.ParseGroupVersion plain_wrapper
      (parsed_options stdout false "bogus") (getter_for scenarioA None)
      no_flag_changed []
  = ([EvToDiscoveryClient],
     Exit (NoCompatiblePrinterError "bogus"
             (AllowedFormats
                (APIResourceOptions.PrintFlags
                   (parsed_options stdout false "bogus"))))).
Proof.
  apply (unknown_output_format_ends_the_command schema.ParseGroupVersion
           plain_wrapper (parsed_options stdout false "bogus")
           (getter_for scenarioA None) no_flag_changed
           (Some (mkDiscovery (scenarioA, None))) "bogus"); reflexivity.
Defined.

(** X22, on [-o wide] and scenario A: the options that [Complete]
    returns hold the client of the getter and the printer that the
    human-readable family hands out. *)
Lemma wide_options_completed :
  APIResourceOptions.discoveryClient
    (completed_options stdout false "wide" scenarioA)
  = (ToDiscoveryClient (getter_for scenarioA None)).1
  ∧ plain_wrapper
      (ToPrinter (APIResourceOptions.PrintFlags
                    (parsed_options stdout false "wide"))).2.1
    = (APIResourceOptions.PrintObj
         (completed_options stdout false "wide" scenarioA), None).
Proof.
  destruct (Complete_fills_the_options plain_wrapper
              (parsed_options stdout false "wide") (getter_for scenarioA None)
              no_flag_changed []
              (completed_options stdout false "wide" scenarioA) None)
    as [_ Hfilled]; [reflexivity|].
  destruct (Hfilled eq_refl) as (_ & _ & Hclient & _ & _ & _ & Hprinter & _).
  by split.
Defined.

(** X23, on [-o wide] and scenario A. *)
Lemma wide_command_run :
  Run schema.ParseGroupVersion plain_wrapper
      (parsed_options stdout false "wide") (getter_for scenarioA None)
      no_flag_changed []
  = (trace (Complete plain_wrapper (parsed_options stdout false "wide")
                     (getter_for scenarioA None) no_flag_changed [])
     ++ trace (RunAPIResources schema.ParseGroupVersion
                 (completed_options stdout false "wide" scenarioA)),
     match result (RunAPIResources schema.ParseGroupVersion
                     (completed_options stdout false "wide" scenarioA)) with
     | Return None => Return ()
     | Return (Some e) => Exit e
     | Panic msg => Panic msg
     | Exit e => Exit e
     end).
Proof.
  apply (command_runs_the_pipeline schema.ParseGroupVersion plain_wrapper
           (parsed_options stdout false "wide") (getter_for scenarioA None)
           no_flag_changed [] (completed_options stdout false "wide" scenarioA)).
  - reflexivity.
  - simpl. left.
Defined.
